(** * termsandconditions.views: a shallow embedding

    The views of the terms-and-conditions application, written as
    functions over an explicit world: the two tables the views read and
    write, the cache, the message queue and the outgoing mail.

    Text is kept as [string]; the views look inside a string only for
    the IP header value, which a WSGI server hands over as Latin-1 code
    points, one per character. Every other string is compared, joined or
    passed to the host untouched. *)

From Stdlib Require Import ZArith Lia Ascii String.
From stdpp Require Import base option list gmap strings sorting.

Set Warnings "-register-all".

Local Open Scope Z_scope.
Local Open Scope string_scope.

(** ** Exceptions and the request monad *)

Inductive exn :=
  | DoesNotExist
  | MultipleObjectsReturned
  | IntegrityError
  | ValueError
  | TypeError
  | KeyError
  | SMTPException
  | ImproperlyConfigured
  | IndexError
  | OtherError (name : string).

Global Instance exn_eq_dec : EqDecision exn.
Proof. solve_decision. Defined.

Inductive result (A : Type) :=
  | Ok (a : A)
  | Raise (e : exn).
Arguments Ok {A} a.
Arguments Raise {A} e.

(** ** Rows of the two tables *)

(** A version number: the number [coefficient / 10 ^ places]. The same
    number has many spellings (2, 2.0, 2.00); lookups compare numbers. *)
Record Decimal := mkDecimal {
  coefficient : Z;
  places : nat }.

Global Instance Decimal_eq_dec : EqDecision Decimal.
Proof. solve_decision. Defined.

Definition decimal_eq (a b : Decimal) : Prop :=
  (coefficient a * 10 ^ Z.of_nat (places b)
   = coefficient b * 10 ^ Z.of_nat (places a))%Z.

Global Instance decimal_eq_dec : RelDecision decimal_eq.
Proof. intros a b. unfold decimal_eq. apply _. Defined.

(** A [TermsAndConditions] row. [date_active] is nullable. *)
Record Terms := mkTerms {
  terms_pk : Z;
  slug : string;
  version_number : Decimal;
  date_active : option Z }.

Global Instance Terms_eq_dec : EqDecision Terms.
Proof. solve_decision. Defined.

(** A [UserTermsAndConditions] row: [user] and [terms] are the foreign
    keys, held as primary keys. *)
Record UserTerms := mkUserTerms {
  ut_user : Z;
  ut_terms : Z;
  ip_address : string;
  date_accepted : Z }.

Global Instance UserTerms_eq_dec : EqDecision UserTerms.
Proof. solve_decision. Defined.

Record User := mkUser {
  user_pk : Z;
  username : string }.

Global Instance User_eq_dec : EqDecision User.
Proof. solve_decision. Defined.

(** ** Messages, mail, settings *)

Inductive level := INFO | ERROR.

Record Email := mkEmail {
  subject : string;
  body : string;
  from_email : string;
  recipients : list (option string) }.

(** [getattr(settings, name, default)]: an unset attribute is [None]. *)
Record Settings := mkSettings {
  ALLOWED_HOSTS : list string;
  DEFAULT_FROM_EMAIL : string;
  TERMS_STORE_IP_ADDRESS : option bool;
  TERMS_IP_HEADER_NAME : option string;
  TERMS_CACHE_SECONDS_setting : option Z }.

Definition DEFAULT_TERMS_IP_HEADER_NAME : string := "REMOTE_ADDR".

Definition TERMS_CACHE_SECONDS (st : Settings) : Z :=
  default 30 (TERMS_CACHE_SECONDS_setting st).

(** ** The world a view runs in *)

(** A cache entry is the value with the timeout it was stored under. A
    queryset is evaluated when the cache pickles it, so the value is the
    list of rows at the moment of [cache.set]. *)
Record World := mkWorld {
  terms_table : list Terms;
  userterms_table : list UserTerms;
  user_table : list User;
  cache : gmap string (list Terms * Z);
  messages : list (level * string);
  smtp : Email → option exn;
  outbox : list Email;
  now : Z }.

Definition M (A : Type) : Type := World → result A * World.

Global Instance M_ret : MRet M := λ A a w, (Ok a, w).
Global Instance M_bind : MBind M := λ A B k m w,
  match m w with
  | (Ok a, w') => k a w'
  | (Raise e, w') => (Raise e, w')
  end.

Definition raise {A} (e : exn) : M A := λ w, (Raise e, w).
Definition lift {A} (r : result A) : M A := λ w, (r, w).

(** [try: m except e: h] *)
Definition try_except {A} (m : M A) (e : exn) (h : M A) : M A := λ w,
  match m w with
  | (Raise e', w') => if decide (e' = e) then h w' else (Raise e', w')
  | r => r
  end.

(** ** What the host provides

    Python built-ins, Django helpers and the database backend's
    treatment of NULL are taken as they come: the views are verified for
    every host. *)
Class Host := {
  (** [int(s)]; [None] is a [ValueError]. *)
  py_int : string → option Z;
  (** the number a [version_number] lookup makes of the text it is given,
      or the error the field raises for text that is no number *)
  to_version : string → result Decimal;
  (** [django.utils.http.url_has_allowed_host_and_scheme(url, hosts)] *)
  url_has_allowed_host_and_scheme : string → list string → bool;
  (** [django.utils.encoding.iri_to_uri] *)
  iri_to_uri : string → string;
  (** [gettext] *)
  gettext : string → string;
  (** rendering of [tc_email_terms.html] with the form's terms *)
  render_email : list Terms → string;
  (** whether the backend sorts NULL above every date *)
  nulls_high : bool }.

(** ** Dictionaries *)

(** [request.GET] and [request.POST]: every key holds a list of values. *)
Abbreviation QueryDict := (gmap string (list string)).

(** [QueryDict.get(key)]: the last value; a missing key or an empty list
    gives the default. *)
Definition querydict_get (d : QueryDict) (key : string) : option string :=
  d !! key ≫= last.

Definition getlist (d : QueryDict) (key : string) : list string :=
  default [] (d !! key).

(** [form.cleaned_data] of [EmailTermsForm]. *)
Record CleanedData := mkCleaned {
  cd_terms : list Terms;
  cd_email_subject : option string;
  cd_email_address : option string;
  cd_returnTo : option string }.

(** What [get_return_to] asks of [from_dict]: [from_dict.get(key)] where
    the value is text. *)
Class FromDict (D : Type) := dict_get : D → string → option string.

Global Instance QueryDict_FromDict : FromDict QueryDict := querydict_get.
Global Instance dict_FromDict : FromDict (gmap string string) := λ d key, d !! key.
Global Instance CleanedData_FromDict : FromDict CleanedData := λ d key,
  if decide (key = "returnTo") then cd_returnTo d
  else if decide (key = "email_subject") then cd_email_subject d
  else if decide (key = "email_address") then cd_email_address d
  else None.

(** ** GetTermsViewMixin: the redirect target

    The debug line logged for an unsafe URL is not part of the world. *)

Section return_to.
Context `{Host}.
Variable st : Settings.

Definition is_safe_url (url : string) : bool :=
  url_has_allowed_host_and_scheme url (ALLOWED_HOSTS st).

Definition get_return_to `{FromDict D} (from_dict : D) : string :=
  let return_to := default "/" (dict_get from_dict "returnTo") in
  if is_safe_url return_to then iri_to_uri return_to else "/".
End return_to.

(** ** Text operations on the IP header value *)

(** [str.isspace] on one Latin-1 character. *)
Definition py_isspace (c : ascii) : bool :=
  bool_decide (Ascii.N_of_ascii c ∈
    [9; 10; 11; 12; 13; 28; 29; 30; 31; 32; 133; 160]%N).

(** [sub in s] *)
Fixpoint str_in (sub s : string) : bool :=
  String.prefix sub s ||
  match s with
  | EmptyString => false
  | String _ s' => str_in sub s'
  end.

(** [s.split(sep)] for a separator of one character. *)
Fixpoint split (sep : ascii) (s : string) : list string :=
  match s with
  | EmptyString => [EmptyString]
  | String c s' =>
      if decide (c = sep) then EmptyString :: split sep s'
      else match split sep s' with
           | field :: fields => String c field :: fields
           | [] => [String c EmptyString]
           end
  end.

Fixpoint lstrip (s : string) : string :=
  match s with
  | EmptyString => EmptyString
  | String c s' => if py_isspace c then lstrip s' else s
  end.

Fixpoint rstrip (s : string) : string :=
  match s with
  | EmptyString => EmptyString
  | String c s' =>
      match rstrip s' with
      | EmptyString => if py_isspace c then EmptyString else String c EmptyString
      | r => String c r
      end
  end.

(** [s.strip()] *)
Definition strip (s : string) : string := rstrip (lstrip s).

(** ** Requests *)

(** The values a session holds, as far as [post] walks into them. *)
Inductive pyobj :=
  | PInt (n : Z)
  | PStr (s : string)
  | PDict (items : gmap string pyobj).

(** [o[key]] for a text key. *)
Definition subscript (o : pyobj) (key : string) : result pyobj :=
  match o with
  | PDict items =>
      match items !! key with
      | Some v => Ok v
      | None => Raise KeyError
      end
  | _ => Raise TypeError
  end.

(** [request.user] is [None] for [AnonymousUser], whose
    [is_authenticated] is false. *)
Record Request := mkRequest {
  POST : QueryDict;
  GET : QueryDict;
  META : gmap string string;
  user : option User;
  session : gmap string pyobj }.

Inductive Response :=
  | HttpResponseRedirect (url : string).

(** ** The object managers *)

(** [Model.objects.get(...)] over the rows that match. *)
Definition objects_get {A} (matching : list A) : result A :=
  match matching with
  | [] => Raise DoesNotExist
  | [row] => Ok row
  | _ => Raise MultipleObjectsReturned
  end.

(** [TermsAndConditions.objects.get(pk=pk)] *)
Definition TermsAndConditions_get (pk : Z) : M Terms := λ w,
  (objects_get (filter (λ t, terms_pk t = pk) (terms_table w)), w).

Section managers.
Context `{Host}.

(** The order a backend gives nullable dates. *)
Definition date_leb (a b : option Z) : bool :=
  match a, b with
  | None, None => true
  | None, Some _ => negb nulls_high
  | Some _, None => nulls_high
  | Some x, Some y => bool_decide (x ≤ y)%Z
  end.

(** The first row of [order_by("-date_active")], if any. *)
Fixpoint latest_row (rows : list Terms) : option Terms :=
  match rows with
  | [] => None
  | t :: rows' =>
      match latest_row rows' with
      | None => Some t
      | Some m => if date_leb (date_active m) (date_active t) then Some t else Some m
      end
  end.

(** [queryset.latest("date_active")] *)
Definition latest (rows : list Terms) : result Terms :=
  match latest_row rows with
  | Some t => Ok t
  | None => Raise DoesNotExist
  end.

(** [User.objects.get(id=user_pk)]: the id is prepared with [int]. *)
Definition User_get (user_pk_value : pyobj) : M User := λ w,
  match user_pk_value with
  | PInt n => (objects_get (filter (λ u, user_pk u = n) (user_table w)), w)
  | PStr s =>
      match py_int s with
      | Some n => (objects_get (filter (λ u, user_pk u = n) (user_table w)), w)
      | None => (Raise ValueError, w)
      end
  | PDict _ => (Raise TypeError, w)
  end.
End managers.

(** [UserTermsAndConditions.objects.filter(user=user)] *)
Definition UserTerms_filter_user (u : User) (w : World) : list UserTerms :=
  filter (λ r, ut_user r = user_pk u) (userterms_table w).

(** Modelled from the spec: the [UserTermsAndConditions] model is not
    among the sources. Its rows are unique on (user, terms); [save] of a
    new row inserts it, stamped with the time of acceptance, and an
    insert that would break the uniqueness raises [IntegrityError]. *)
Definition UserTerms_save (u : User) (t : Terms) (ip : string) : M unit := λ w,
  if decide (Exists (λ r, ut_user r = user_pk u ∧ ut_terms r = terms_pk t)
                    (userterms_table w))
  then (Raise IntegrityError, w)
  else (Ok (),
        mkWorld (terms_table w)
                (userterms_table w ++ [mkUserTerms (user_pk u) (terms_pk t) ip (now w)])
                (user_table w) (cache w) (messages w) (smtp w) (outbox w) (now w)).

(** [cache.set(key, value, timeout)] *)
Definition cache_set (key : string) (value : list Terms) (timeout : Z) : M unit := λ w,
  (Ok (),
   mkWorld (terms_table w) (userterms_table w) (user_table w)
           (<[key := (value, timeout)]> (cache w))
           (messages w) (smtp w) (outbox w) (now w)).

(** [messages.add_message(request, level, text)] *)
Definition add_message (lv : level) (text : string) : M unit := λ w,
  (Ok (),
   mkWorld (terms_table w) (userterms_table w) (user_table w) (cache w)
           (messages w ++ [(lv, text)]) (smtp w) (outbox w) (now w)).

(** [EmailMessage.recipients()]: the addresses that are set and not
    empty. *)
Definition email_recipients (m : Email) : list string :=
  omap (λ r, match r with
             | Some address =>
                 if decide (address = EmptyString) then None else Some address
             | None => None
             end)
       (recipients m).

(** [send_mail(..., fail_silently=False)]: a message nobody is to
    receive is dropped without a word to the transport; otherwise the
    transport either takes the message or raises. *)
Definition send_mail (m : Email) : M unit := λ w,
  if decide (email_recipients m = []) then (Ok (), w)
  else
    match smtp w m with
    | Some e => (Raise e, w)
    | None =>
        (Ok (),
         mkWorld (terms_table w) (userterms_table w) (user_table w) (cache w)
                 (messages w) (smtp w) (outbox w ++ [m]) (now w))
    end.

(** ** Ordering by slug *)

Definition slug_le (a b : Terms) : Prop := String.le (slug a) (slug b).

Global Instance slug_le_dec : RelDecision slug_le.
Proof. intros a b. unfold slug_le. apply _. Defined.

(** [queryset.order_by("slug")], slugs compared character by character. *)
Definition order_by_slug (rows : list Terms) : list Terms :=
  merge_sort slug_le rows.

(** [queryset.exclude(userterms__in=accepted)]: drops every terms row
    that some row of [accepted] points to. *)
Definition exclude_userterms_in (accepted : list UserTerms) (rows : list Terms)
  : list Terms :=
  filter (λ t, Forall (λ r, ut_terms r ≠ terms_pk t) accepted) rows.

Global Instance result_ret : MRet result := λ A a, Ok a.
Global Instance result_bind : MBind result := λ A B k r,
  match r with
  | Ok a => k a
  | Raise e => Raise e
  end.

(** Python truth of [kwargs.get(key)]: set, and not the empty text. *)
Definition truthy (v : option string) : bool :=
  match v with
  | Some s => bool_decide (s ≠ EmptyString)
  | None => false
  end.

(** ** The TermsAndConditions model *)

(** A row is in effect at [t] when its [date_active] is set and not
    later than [t]. *)
Definition in_effect (t : Z) (row : Terms) : Prop :=
  match date_active row with
  | Some d => (d ≤ t)%Z
  | None => False
  end.

Global Instance in_effect_dec t row : Decision (in_effect t row).
Proof. unfold in_effect. destruct (date_active row); apply _. Defined.

Definition not_agreed_key (u : User) : string :=
  "tandc.not_agreed_terms_" ++ username u.

Section models.
Context `{Host}.
Variable st : Settings.

(** The rows of one slug that are in effect. *)
Definition active_rows (slug_ : string) (w : World) : list Terms :=
  filter (λ t, slug t = slug_ ∧ in_effect (now w) t) (terms_table w).

(** Modelled from the spec: [TermsAndConditions.get_active] is not
    among the sources. It returns the version of the slug with the
    latest [date_active] not in the future, and fails with NotFound
    when there is none. *)
Definition get_active (slug_ : string) : M Terms := λ w,
  (latest (active_rows slug_ w), w).

(** Modelled from the spec: [TermsAndConditions.get_active_terms_list]
    is not among the sources. It has one entry per slug, the active
    version of that slug, ordered by slug ascending. *)
Definition get_active_terms_list (w : World) : list Terms :=
  order_by_slug
    (omap (λ s, latest_row (active_rows s w))
          (remove_dups (slug <$> terms_table w))).

(** The queryset [post] builds, evaluated on the tables of [w]:
    [get_active_terms_list().exclude(userterms__in=
       UserTermsAndConditions.objects.filter(user=user)).order_by("slug")] *)
Definition not_agreed_terms (u : User) (w : World) : list Terms :=
  order_by_slug
    (exclude_userterms_in (UserTerms_filter_user u w) (get_active_terms_list w)).

(** Modelled from the spec:
    [TermsAndConditions.get_active_terms_not_agreed_to] is not among
    the sources. An anonymous caller gets the full active list. For a
    user the cache entry under the user's key is returned when there is
    one (the key [post] writes under); on a miss the not-agreed terms
    are computed, stored under the configured timeout, and returned. *)
Definition get_active_terms_not_agreed_to (who : option User) : M (list Terms) :=
  match who with
  | None => λ w, (Ok (get_active_terms_list w), w)
  | Some u => λ w,
      match cache w !! not_agreed_key u with
      | Some (value, _) => (Ok value, w)
      | None =>
          let value := not_agreed_terms u w in
          (cache_set (not_agreed_key u) value (TERMS_CACHE_SECONDS st);;
           mret value) w
      end
  end.
End models.

(** ** The views *)

Section views.
Context `{Host}.
Variable st : Settings.

(** [GetTermsViewMixin.get_terms] *)
Definition get_terms (req : Request) (kwargs : gmap string string)
  : M (list Terms) :=
  let kw_slug := kwargs !! "slug" in
  let kw_version := kwargs !! "version" in
  if truthy kw_slug && truthy kw_version then
    version ← lift (to_version (default EmptyString kw_version));
    t ← ((λ w, (latest (filter (λ t, Some (slug t) = kw_slug
                                    ∧ decimal_eq (version_number t) version)
                               (terms_table w)), w)) : M Terms);
    mret [t]
  else if truthy kw_slug then
    t ← get_active (default EmptyString kw_slug);
    mret [t]
  else
    get_active_terms_not_agreed_to st (user req).

(** [AcceptTermsView.post], lines 120-128: the address to record. *)
Definition get_ip_address (req : Request) : result string :=
  let store_ip_address := default true (TERMS_STORE_IP_ADDRESS st) in
  if store_ip_address then
    match META req !! default DEFAULT_TERMS_IP_HEADER_NAME (TERMS_IP_HEADER_NAME st) with
    | None => Raise TypeError
    | Some ip_address =>
        if str_in "," ip_address then
          match split "," ip_address !! 0%nat with
          | Some first => Ok (strip first)
          | None => Raise IndexError
          end
        else Ok ip_address
    end
  else Ok EmptyString.

(** [AcceptTermsView.post], lines 131-151: the body of the loop. *)
Definition accept_terms (u : User) (ip_address terms_id : string) : M unit :=
  try_except
    (pk ← lift (from_option Ok (Raise ValueError) (py_int terms_id));
     terms ← TermsAndConditions_get pk;
     UserTerms_save u terms ip_address;;
     not_agreed ← (λ w, (Ok (not_agreed_terms u w), w));
     cache_set (not_agreed_key u) not_agreed (TERMS_CACHE_SECONDS st))
    IntegrityError
    (mret ()).

(** [AcceptTermsView.post], line 130: the loop over the submitted ids. *)
Fixpoint accept_all (u : User) (ip_address : string) (terms_ids : list string)
  : M unit :=
  match terms_ids with
  | [] => mret ()
  | terms_id :: rest =>
      accept_terms u ip_address terms_id;;
      accept_all u ip_address rest
  end.

(** [AcceptTermsView.post], lines 110-118: the user who accepts;
    [None] stands for the early redirect to the root. *)
Definition accepting_user (req : Request) : M (option User) :=
  match user req with
  | Some u => mret (Some u)
  | None =>
      match session req !! "partial_pipeline" with
      | Some pipeline =>
          user_pk ← lift (kw ← subscript pipeline "kwargs";
                          usr ← subscript kw "user";
                          subscript usr "pk");
          u ← User_get user_pk;
          mret (Some u)
      | None => mret None
      end
  end.

(** [AcceptTermsView.post] *)
Definition post (req : Request) : M Response :=
  let return_url := get_return_to st (POST req) in
  let terms_ids := getlist (POST req) "terms" in
  if decide (terms_ids = []) then mret (HttpResponseRedirect return_url)
  else
    who ← accepting_user req;
    match who with
    | None => mret (HttpResponseRedirect "/")
    | Some u =>
        ip_address ← lift (get_ip_address req);
        accept_all u ip_address terms_ids;;
        mret (HttpResponseRedirect return_url)
    end.

(** [FormView.form_valid]: redirects to [get_success_url()], which
    refuses an empty [success_url]. *)
Definition FormView_form_valid (success_url : string) : M Response :=
  if decide (success_url = EmptyString) then raise ImproperlyConfigured
  else mret (HttpResponseRedirect success_url).

(** [EmailTermsView.form_valid], lines 196-202: the message handed to
    [send_mail]. *)
Definition terms_email (cleaned_data : CleanedData) (template_rendered : string)
  : Email :=
  mkEmail (default (gettext "Terms") (dict_get cleaned_data "email_subject"))
          template_rendered
          (DEFAULT_FROM_EMAIL st)
          [dict_get cleaned_data "email_address"].

(** [EmailTermsView.form_valid] *)
Definition form_valid (cleaned_data : CleanedData) : M Response :=
  let template_rendered := render_email (cd_terms cleaned_data) in
  try_except
    (send_mail (terms_email cleaned_data template_rendered);;
     add_message INFO (gettext "Terms and Conditions Sent."))
    SMTPException
    (add_message ERROR (gettext "An Error Occurred Sending Your Message."));;
  let success_url := get_return_to st cleaned_data in
  FormView_form_valid success_url.
End views.

(** ** The not-agreed set in the words of the specification *)

(** [getAcceptedVersionIds(user_id)] *)
Definition accepted_version_ids (u : User) (w : World) : list Z :=
  omap (λ row, if decide (ut_user row = user_pk u) then Some (ut_terms row) else None)
       (userterms_table w).

(** [resolve(user_id)]: the active list minus any version whose id is
    among the accepted ids, ordered by slug ascending. *)
Definition resolve `{Host} (u : User) (w : World) : list Terms :=
  merge_sort slug_le
    (filter (λ t, terms_pk t ∉ accepted_version_ids u w) (get_active_terms_list w)).

(** ** Predicates on text *)






(** The user has a row for the terms with primary key [pk]. *)
Definition accepted (u : User) (pk : Z) (w : World) : Prop :=
  Exists (λ r, ut_user r = user_pk u ∧ ut_terms r = pk) (userterms_table w).

(** The submitted text names exactly one terms row. *)
Definition resolves_to `{Host} (terms_id : string) (t : Terms) (w : World) : Prop :=
  ∃ pk, py_int terms_id = Some pk
        ∧ filter (λ t, terms_pk t = pk) (terms_table w) = [t].

(** The world once [u] has a new row for [t]. *)
Definition with_acceptance (u : User) (t : Terms) (ip : string) (w : World) : World :=
  mkWorld (terms_table w)
          (userterms_table w ++ [mkUserTerms (user_pk u) (terms_pk t) ip (now w)])
          (user_table w) (cache w) (messages w) (smtp w) (outbox w) (now w).

(** The world once the cache entry of [u] is rewritten from the tables. *)
Definition with_fresh_cache `{Host} (st : Settings) (u : User) (w : World) : World :=
  mkWorld (terms_table w) (userterms_table w) (user_table w)
          (<[not_agreed_key u := (not_agreed_terms u w, TERMS_CACHE_SECONDS st)]> (cache w))
          (messages w) (smtp w) (outbox w) (now w).

(** The cache entry of [u] is the not-agreed set of the tables. *)
Definition cache_fresh `{Host} (st : Settings) (u : User) (w : World) : Prop :=
  cache w !! not_agreed_key u = Some (not_agreed_terms u w, TERMS_CACHE_SECONDS st).

(** The request has an address to record: IP storage is off, or the
    configured header is in the request metadata. *)
Definition address_available (st : Settings) (req : Request) : Prop :=
  default true (TERMS_STORE_IP_ADDRESS st) = false
  ∨ is_Some (META req
               !! default DEFAULT_TERMS_IP_HEADER_NAME (TERMS_IP_HEADER_NAME st)).

(** ** Requests and worlds for the further properties *)

(** The request as it is once [u] is the authenticated user. *)
Definition as_user (u : User) (req : Request) : Request :=
  mkRequest (POST req) (GET req) (META req) (Some u) (session req).

(** [pipeline["kwargs"]["user"]["pk"]], the walk of line 115. *)
Definition pipeline_user_pk (pipeline : pyobj) : result pyobj :=
  kw ← subscript pipeline "kwargs";
  usr ← subscript kw "user";
  subscript usr "pk".

(** No two acceptance rows share user and terms. *)
Definition unique_acceptances (w : World) : Prop :=
  NoDup ((λ r, (ut_user r, ut_terms r)) <$> userterms_table w).

(** ** A host and a site to run the views on *)

Module Site.

Fixpoint digits (acc : Z) (s : string) : option Z :=
  match s with
  | EmptyString => Some acc
  | String c s' =>
      match Ascii.is_nat c with
      | Some d => digits (10 * acc + Z.of_nat d) s'
      | None => None
      end
  end.

(** [int] on the plain decimal texts a form submits. *)
Definition decimal (s : string) : option Z :=
  match s with
  | EmptyString => None
  | _ => digits 0 s
  end.

(** The number written as digits with at most one point. *)
Definition decimal_text (s : string) : result Decimal :=
  match split "." s with
  | [whole] =>
      match decimal whole with
      | Some n => Ok (mkDecimal n 0)
      | None => Raise (OtherError "ValidationError")
      end
  | [whole; fraction] =>
      match decimal (whole ++ fraction) with
      | Some n => Ok (mkDecimal n (String.length fraction))
      | None => Raise (OtherError "ValidationError")
      end
  | _ => Raise (OtherError "ValidationError")
  end.

(** A host that allows site-relative paths only and whose
    [iri_to_uri] leaves such ASCII paths as they are. *)
Global Instance host : Host := {|
  py_int := decimal;
  to_version := decimal_text;
  url_has_allowed_host_and_scheme url _ :=
    String.prefix "/" url && negb (String.prefix "//" url);
  iri_to_uri url := url;
  gettext text := text;
  render_email terms := String.concat ", " (slug <$> terms);
  nulls_high := true |}.

Definition settings : Settings :=
  mkSettings ["example.org"] "terms@example.org" None None None.

Definition site_terms_1 : Terms := mkTerms 1 "site-terms" (mkDecimal 10 1) (Some 100).
Definition site_terms_2 : Terms := mkTerms 2 "site-terms" (mkDecimal 20 1) (Some 200).
Definition contrib_terms : Terms := mkTerms 3 "contrib-terms" (mkDecimal 10 1) (Some 150).
Definition draft_terms : Terms := mkTerms 4 "site-terms" (mkDecimal 30 1) None.

Definition alice : User := mkUser 10 "alice".

Definition world (accepted : list UserTerms) : World :=
  mkWorld [site_terms_1; site_terms_2; contrib_terms; draft_terms]
          accepted [alice] ∅ [] (λ _, None) [] 300.

Definition request (ids : list string) (meta : gmap string string) : Request :=
  mkRequest {[ "terms" := ids; "returnTo" := ["/home/"] ]} ∅ meta (Some alice) ∅.



(** Alice has accepted version 2.0 of the site terms, and her cache
    entry still lists it. *)
Definition world_stale : World :=
  mkWorld [site_terms_1; site_terms_2; contrib_terms; draft_terms]
          [mkUserTerms 10 2 "198.51.100.7" 250] [alice]
          {[ not_agreed_key alice := ([contrib_terms; site_terms_2], 30) ]}
          [] (λ _, None) [] 300.

(** The same world with the mail transport refusing every message. *)
Definition offline (w : World) : World :=
  mkWorld (terms_table w) (userterms_table w) (user_table w) (cache w)
          (messages w) (λ _, Some SMTPException) (outbox w) (now w).

Definition form : CleanedData :=
  mkCleaned [site_terms_2] None (Some "bob@example.org") (Some "/home/").

(** The session entry a social-auth pipeline leaves for user [pk]. *)
Definition pipeline (pk : pyobj) : pyobj :=
  PDict {[ "kwargs" := PDict {[ "user" := PDict {[ "pk" := pk ]} ]} ]}.

(** A request of a visitor who is not logged in. *)
Definition visitor_request (ids : list string) (meta : gmap string string)
    (sess : gmap string pyobj) : Request :=
  mkRequest {[ "terms" := ids; "returnTo" := ["/home/"] ]} ∅ meta None sess.

Definition settings_no_ip : Settings :=
  mkSettings ["example.org"] "terms@example.org" (Some false) None None.

End Site.

(** * Properties *)

(** ** The monad *)

Lemma bind_ok {A B} (m : M A) (k : A → M B) w a w' :
  m w = (Ok a, w') → (m ≫= k) w = k a w'.
Proof. intros Hm. unfold mbind, M_bind. by rewrite Hm. Qed.

Lemma bind_raise {A B} (m : M A) (k : A → M B) w e w' :
  m w = (Raise e, w') → (m ≫= k) w = (Raise e, w').
Proof. intros Hm. unfold mbind, M_bind. by rewrite Hm. Qed.

Lemma try_except_ok {A} (m h : M A) e w a w' :
  m w = (Ok a, w') → try_except m e h w = (Ok a, w').
Proof. intros Hm. unfold try_except. by rewrite Hm. Qed.

Lemma try_except_caught {A} (m h : M A) e w w' :
  m w = (Raise e, w') → try_except m e h w = h w'.
Proof. intros Hm. unfold try_except. rewrite Hm. by rewrite decide_True. Qed.

Lemma try_except_passed {A} (m h : M A) e e' w w' :
  m w = (Raise e', w') → e' ≠ e → try_except m e h w = (Raise e', w').
Proof. intros Hm Hne. unfold try_except. rewrite Hm. by rewrite decide_False. Qed.

(** ** get_return_to *)

(** C10: [get_return_to] returns the IRI-encoded [returnTo] value when
    that value passes the safety check and the root path in every other
    case: when the value fails the check, and when it is absent, where
    the default root path is used (which [iri_to_uri] leaves as it is). *)
Theorem get_return_to_cases `{Host} `{FromDict D} (st : Settings) (from_dict : D)
    (Hroot : iri_to_uri "/" = "/") :
  (∀ v, dict_get from_dict "returnTo" = Some v →
        is_safe_url st v = true →
        get_return_to st from_dict = iri_to_uri v)
  ∧ (∀ v, dict_get from_dict "returnTo" = Some v →
          is_safe_url st v = false →
          get_return_to st from_dict = "/")
  ∧ (dict_get from_dict "returnTo" = None →
     get_return_to st from_dict = "/").
Proof.
  unfold get_return_to. repeat split.
  - intros v -> Hsafe. simpl. by rewrite Hsafe.
  - intros v -> Hsafe. simpl. by rewrite Hsafe.
  - intros ->. simpl. destruct (is_safe_url st "/"); done.
Qed.

Lemma get_return_to_cases_witness :
  get_return_to Site.settings ({[ "returnTo" := ["/home/"] ]} : QueryDict) = "/home/"
  ∧ get_return_to Site.settings ({[ "returnTo" := "//evil.example" ]} : gmap string string) = "/"
  ∧ get_return_to Site.settings (∅ : QueryDict) = "/".
Proof.
  assert (Hroot : iri_to_uri "/" = "/") by reflexivity.
  split; [|split].
  - apply (proj1 (get_return_to_cases Site.settings
                    ({[ "returnTo" := ["/home/"] ]} : QueryDict) Hroot) "/home/");
      reflexivity.
  - apply (proj1 (proj2 (get_return_to_cases Site.settings
                    ({[ "returnTo" := "//evil.example" ]} : gmap string string) Hroot))
                 "//evil.example");
      reflexivity.
  - apply (proj2 (proj2 (get_return_to_cases Site.settings (∅ : QueryDict) Hroot)));
      reflexivity.
Defined.

(** ** AcceptTermsView.post: the early exits *)

Lemma post_no_terms `{Host} (st : Settings) (req : Request) (w : World) :
  getlist (POST req) "terms" = [] →
  post st req w = (Ok (HttpResponseRedirect (get_return_to st (POST req))), w).
Proof. intros Hempty. unfold post. rewrite Hempty. by rewrite decide_True. Qed.

(** C9: with an empty list of submitted terms ids [post] redirects to the
    validated return URL at once and leaves the world as it was: no
    acceptance row is created and no cache entry is written. *)
Theorem post_empty_terms `{Host} (st : Settings) (req : Request) (w : World) :
  getlist (POST req) "terms" = [] →
  post st req w = (Ok (HttpResponseRedirect (get_return_to st (POST req))), w)
  ∧ userterms_table (post st req w).2 = userterms_table w
  ∧ cache (post st req w).2 = cache w.
Proof.
  intros Hempty. unfold post. rewrite Hempty.
  destruct (decide ([] = [])) as [_|Hne]; [by repeat split | by destruct Hne].
Qed.

Lemma post_empty_terms_witness :
  post Site.settings (Site.request [] ∅) (Site.world [])
  = (Ok (HttpResponseRedirect "/home/"), Site.world []).
Proof.
  exact (proj1 (post_empty_terms Site.settings (Site.request [] ∅) (Site.world [])
                  eq_refl)).
Defined.

Lemma accepting_user_world `{Host} (req : Request) (w w' : World) r :
  accepting_user req w = (r, w') → w' = w.
Proof.
  unfold accepting_user. destruct (user req) as [u|].
  { by intros [= _ <-]. }
  destruct (session req !! "partial_pipeline") as [pipeline|].
  2: { by intros [= _ <-]. }
  unfold mbind at 1, M_bind, lift.
  destruct (_ ≫= _) as [user_pk_value|e]; [|by intros [= _ <-]].
  unfold mbind, M_bind, User_get.
  destruct user_pk_value as [n|s|items].
  - destruct (objects_get _); by intros [= _ <-].
  - destruct (py_int s); [destruct (objects_get _)|]; by intros [= _ <-].
  - by intros [= _ <-].
Qed.

(** Past the two early exits, [post] extracts the address, runs the loop
    and redirects. *)
Lemma post_identified `{Host} (st : Settings) (req : Request) (u : User) (w : World) :
  getlist (POST req) "terms" ≠ [] →
  accepting_user req w = (Ok (Some u), w) →
  post st req w =
    match get_ip_address st req with
    | Ok ip =>
        (accept_all st u ip (getlist (POST req) "terms");;
         mret (HttpResponseRedirect (get_return_to st (POST req)))) w
    | Raise e => (Raise e, w)
    end.
Proof.
  intros Hids Hu. unfold post. rewrite decide_False by done.
  erewrite bind_ok by exact Hu. unfold lift.
  destruct (get_ip_address st req) as [ip|e]; reflexivity.
Qed.

(** Either [post] leaves the world as it was, or it ran the loop for the
    accepting user. *)
Lemma post_cases `{Host} (st : Settings) (req : Request) (w w' : World) r :
  post st req w = (r, w') →
  w' = w
  ∨ ∃ u ip r0,
      accepting_user req w = (Ok (Some u), w)
      ∧ get_ip_address st req = Ok ip
      ∧ accept_all st u ip (getlist (POST req) "terms") w = (r0, w').
Proof.
  destruct (decide (getlist (POST req) "terms" = [])) as [Hids|Hids].
  { rewrite post_no_terms by done. intros [= _ <-]. by left. }
  destruct (accepting_user req w) as [[[u|]|e] w1] eqn:Hu;
    pose proof (accepting_user_world _ _ _ _ Hu) as ->.
  - rewrite (post_identified st req u w Hids Hu).
    destruct (get_ip_address st req) as [ip|e] eqn:Hip;
      [|intros [= _ <-]; by left].
    unfold mbind, M_bind.
    destruct (accept_all st u ip _ w) as [[[]|e] w1] eqn:Hall;
      intros [= _ <-]; right; by eauto 10.
  - unfold post. rewrite decide_False by done. erewrite bind_ok by exact Hu.
    intros [= _ <-]. by left.
  - unfold post. rewrite decide_False by done. erewrite bind_raise by exact Hu.
    intros [= _ <-]. by left.
Qed.

(** C8 (as amended): when IP storage is enabled and the configured header
    is absent from the request metadata, a POST that gets past the two
    early exits (a non-empty list of ids, a user who is identified) raises
    [TypeError] from the membership test on [None], with the world as it
    was: no acceptance row is created. *)
Theorem post_missing_ip_header `{Host} (st : Settings) (req : Request)
    (u : User) (w : World) :
  default true (TERMS_STORE_IP_ADDRESS st) = true →
  META req !! default DEFAULT_TERMS_IP_HEADER_NAME (TERMS_IP_HEADER_NAME st) = None →
  getlist (POST req) "terms" ≠ [] →
  accepting_user req w = (Ok (Some u), w) →
  post st req w = (Raise TypeError, w).
Proof.
  intros Hstore Hmeta Hids Hu.
  rewrite (post_identified st req u w Hids Hu).
  unfold get_ip_address. by rewrite Hstore, Hmeta.
Qed.

Lemma post_missing_ip_header_witness :
  post Site.settings (Site.request ["2"] ∅) (Site.world [])
  = (Raise TypeError, Site.world []).
Proof.
  apply (post_missing_ip_header Site.settings (Site.request ["2"] ∅) Site.alice).
  - reflexivity.
  - reflexivity.
  - discriminate.
  - reflexivity.
Defined.

(** C8 as stated fails: with storage enabled and the header absent, a
    POST with no terms ids is answered by the redirect, not by
    [TypeError]. *)
Lemma post_missing_ip_header_counterexample :
  default true (TERMS_STORE_IP_ADDRESS Site.settings) = true
  ∧ META (Site.request [] ∅)
      !! default DEFAULT_TERMS_IP_HEADER_NAME (TERMS_IP_HEADER_NAME Site.settings) = None
  ∧ post Site.settings (Site.request [] ∅) (Site.world [])
    = (Ok (HttpResponseRedirect "/home/"), Site.world [])
  ∧ (post Site.settings (Site.request [] ∅) (Site.world [])).1 ≠ Raise TypeError.
Proof. repeat split. discriminate. Qed.

(** ** EmailTermsView.form_valid *)

Lemma get_return_to_nonempty `{Host} `{FromDict D} (st : Settings) (from_dict : D) :
  (∀ url, is_safe_url st url = true → iri_to_uri url ≠ EmptyString) →
  get_return_to st from_dict ≠ EmptyString.
Proof.
  intros Hiri. unfold get_return_to.
  destruct (is_safe_url st _) eqn:Hsafe; [by apply Hiri | done].
Qed.

Lemma send_mail_raises (m : Email) (w : World) (e : exn) :
  email_recipients m ≠ [] → smtp w m = Some e → send_mail m w = (Raise e, w).
Proof.
  intros Hto Hsmtp. unfold send_mail. by rewrite decide_False, Hsmtp.
Qed.

Lemma send_mail_sends (m : Email) (w : World) :
  email_recipients m ≠ [] → smtp w m = None →
  send_mail m w
  = (Ok (), mkWorld (terms_table w) (userterms_table w) (user_table w) (cache w)
                    (messages w) (smtp w) (outbox w ++ [m]) (now w)).
Proof.
  intros Hto Hsmtp. unfold send_mail. by rewrite decide_False, Hsmtp.
Qed.

(** C7: when sending the terms email raises an SMTP failure,
    [form_valid] adds the error message and returns its redirect as
    usual; the acceptance rows and the cache are those it started with
    (as are the terms rows and the outgoing mail). The redirect needs
    what [iri_to_uri] gives for a safe URL to be non-empty, as it is for
    every URL that passes the safety check. *)
Theorem form_valid_smtp_failure `{Host} (st : Settings) (cleaned_data : CleanedData)
    (w : World) :
  send_mail (terms_email st cleaned_data (render_email (cd_terms cleaned_data))) w
    = (Raise SMTPException, w) →
  (∀ url, is_safe_url st url = true → iri_to_uri url ≠ EmptyString) →
  ∃ w',
    form_valid st cleaned_data w
      = (Ok (HttpResponseRedirect (get_return_to st cleaned_data)), w')
    ∧ messages w' = (messages w
                     ++ [(ERROR, gettext "An Error Occurred Sending Your Message.")])%list
    ∧ userterms_table w' = userterms_table w
    ∧ cache w' = cache w
    ∧ terms_table w' = terms_table w
    ∧ outbox w' = outbox w.
Proof.
  intros Hsmtp Hiri. eexists. split.
  - unfold form_valid. erewrite bind_ok.
    + unfold FormView_form_valid.
      rewrite decide_False by (by apply get_return_to_nonempty).
      reflexivity.
    + erewrite try_except_caught.
      * reflexivity.
      * by apply bind_raise.
  - simpl. done.
Qed.

Lemma form_valid_smtp_failure_witness :
  ∃ w',
    form_valid Site.settings Site.form (Site.offline (Site.world []))
      = (Ok (HttpResponseRedirect (get_return_to Site.settings Site.form)), w')
    ∧ messages w' = [(ERROR, "An Error Occurred Sending Your Message.")]
    ∧ userterms_table w' = []
    ∧ cache w' = ∅
    ∧ terms_table w' = terms_table (Site.world [])
    ∧ outbox w' = [].
Proof.
  refine (form_valid_smtp_failure Site.settings Site.form
            (Site.offline (Site.world [])) eq_refl _).
  intros [|c url]; simpl; [discriminate | done].
Defined.

(** ** AcceptTermsView.post: one id *)

Lemma not_agreed_terms_ext `{Host} (u : User) (w1 w2 : World) :
  terms_table w1 = terms_table w2 →
  userterms_table w1 = userterms_table w2 →
  now w1 = now w2 →
  not_agreed_terms u w1 = not_agreed_terms u w2.
Proof.
  intros Ht Hu Hn.
  unfold not_agreed_terms, get_active_terms_list, active_rows, UserTerms_filter_user.
  by rewrite Ht, Hu, Hn.
Qed.

Lemma accept_terms_value_error `{Host} st u ip terms_id w :
  py_int terms_id = None →
  accept_terms st u ip terms_id w = (Raise ValueError, w).
Proof.
  intros Hint. unfold accept_terms.
  eapply try_except_passed; [|done].
  apply bind_raise. unfold lift. by rewrite Hint.
Qed.

Lemma accept_terms_lookup_error `{Host} st u ip terms_id pk e w :
  py_int terms_id = Some pk →
  objects_get (filter (λ t, terms_pk t = pk) (terms_table w)) = Raise e →
  e ≠ IntegrityError →
  accept_terms st u ip terms_id w = (Raise e, w).
Proof.
  intros Hint Hget Hne. unfold accept_terms.
  eapply try_except_passed; [|done].
  erewrite bind_ok by (unfold lift; rewrite Hint; reflexivity).
  apply bind_raise. unfold TermsAndConditions_get. by rewrite Hget.
Qed.

Lemma accept_terms_duplicate `{Host} st u ip terms_id t w :
  resolves_to terms_id t w →
  accepted u (terms_pk t) w →
  accept_terms st u ip terms_id w = (Ok (), w).
Proof.
  intros (pk & Hint & Hrow) Hacc. unfold accept_terms.
  erewrite try_except_caught; [reflexivity|].
  erewrite bind_ok by (unfold lift; rewrite Hint; reflexivity).
  erewrite bind_ok by (unfold TermsAndConditions_get; rewrite Hrow; reflexivity).
  apply bind_raise. unfold UserTerms_save. by rewrite decide_True.
Qed.

Lemma accept_terms_new `{Host} st u ip terms_id t w :
  resolves_to terms_id t w →
  ¬ accepted u (terms_pk t) w →
  accept_terms st u ip terms_id w
  = (Ok (), with_fresh_cache st u (with_acceptance u t ip w)).
Proof.
  intros (pk & Hint & Hrow) Hacc. unfold accept_terms.
  erewrite try_except_ok; [reflexivity|].
  erewrite bind_ok by (unfold lift; rewrite Hint; reflexivity).
  erewrite bind_ok by (unfold TermsAndConditions_get; rewrite Hrow; reflexivity).
  erewrite bind_ok by (unfold UserTerms_save; rewrite decide_False by done; reflexivity).
  reflexivity.
Qed.

(** Every way one pass of the loop body can end. *)
Lemma accept_terms_cases `{Host} st u ip terms_id w :
  (∃ e, e ≠ IntegrityError ∧ accept_terms st u ip terms_id w = (Raise e, w))
  ∨ accept_terms st u ip terms_id w = (Ok (), w)
  ∨ (∃ t, resolves_to terms_id t w ∧ ¬ accepted u (terms_pk t) w
          ∧ accept_terms st u ip terms_id w
            = (Ok (), with_fresh_cache st u (with_acceptance u t ip w))).
Proof.
  destruct (py_int terms_id) as [pk|] eqn:Hint.
  2: { left. exists ValueError. split; [done|]. by apply accept_terms_value_error. }
  destruct (objects_get (filter (λ t, terms_pk t = pk) (terms_table w)))
    as [t|e] eqn:Hget.
  - assert (resolves_to terms_id t w) as Hres.
    { exists pk. split; [done|]. unfold objects_get in Hget.
      destruct (filter _ _) as [|t' [|? ?]]; congruence. }
    destruct (decide (accepted u (terms_pk t) w)) as [Hacc|Hacc].
    + right; left. by eapply accept_terms_duplicate.
    + right; right. exists t. split; [done|]. split; [done|].
      by apply accept_terms_new.
  - left. exists e. assert (e ≠ IntegrityError) as Hne.
    { unfold objects_get in Hget.
      destruct (filter _ _) as [|t' [|? ?]]; congruence. }
    split; [done|]. by eapply accept_terms_lookup_error.
Qed.

(** ** AcceptTermsView.post: the loop *)

Lemma accept_all_cons `{Host} st u ip terms_id rest w :
  accept_all st u ip (terms_id :: rest) w
  = match accept_terms st u ip terms_id w with
    | (Ok _, w1) => accept_all st u ip rest w1
    | (Raise e, w1) => (Raise e, w1)
    end.
Proof. reflexivity. Qed.

Lemma accept_all_app `{Host} st u ip ids1 ids2 w :
  accept_all st u ip (ids1 ++ ids2)%list w
  = match accept_all st u ip ids1 w with
    | (Ok _, w1) => accept_all st u ip ids2 w1
    | (Raise e, w1) => (Raise e, w1)
    end.
Proof.
  revert w. induction ids1 as [|terms_id ids1 IH]; intros w; [reflexivity|].
  simpl app. rewrite !accept_all_cons.
  destruct (accept_terms st u ip terms_id w) as [[[]|e] w1]; [apply IH | reflexivity].
Qed.

(** What the loop leaves alone, and what it adds: rows of [u] carrying
    the address [ip], appended to the acceptance table. *)
Lemma accept_all_frame `{Host} st u ip terms_ids w r w' :
  accept_all st u ip terms_ids w = (r, w') →
  terms_table w' = terms_table w ∧ now w' = now w
  ∧ user_table w' = user_table w ∧ messages w' = messages w
  ∧ outbox w' = outbox w
  ∧ ∃ new, userterms_table w' = (userterms_table w ++ new)%list
           ∧ Forall (λ row, ut_user row = user_pk u ∧ ip_address row = ip) new.
Proof.
  revert w. induction terms_ids as [|terms_id rest IH]; intros w.
  { intros [= _ <-]. repeat split. exists []. by rewrite app_nil_r. }
  rewrite accept_all_cons.
  destruct (accept_terms_cases st u ip terms_id w)
    as [(e & _ & ->)|[->|(t & _ & _ & ->)]].
  - intros [= _ <-]. repeat split. exists []. by rewrite app_nil_r.
  - apply IH.
  - intros Hrest. apply IH in Hrest as (Ht & Hn & Hu & Hm & Ho & new & Hnew & Hall).
    simpl in *. repeat split; try done.
    exists (mkUserTerms (user_pk u) (terms_pk t) ip (now w) :: new).
    split; [by rewrite Hnew, <- app_assoc|].
    constructor; done.
Qed.

(** C3: an id whose row the user has already accepted is a no-op for the
    loop: the [IntegrityError] of the insert is absorbed, the pass over
    that id ends without an exception and with the world as it was, and
    the loop goes on with the remaining ids. *)
Theorem accept_all_duplicate `{Host} (st : Settings) (u : User) (ip terms_id : string)
    (t : Terms) (rest : list string) (w : World) :
  resolves_to terms_id t w →
  accepted u (terms_pk t) w →
  UserTerms_save u t ip w = (Raise IntegrityError, w)
  ∧ accept_terms st u ip terms_id w = (Ok (), w)
  ∧ accept_all st u ip (terms_id :: rest) w = accept_all st u ip rest w.
Proof.
  intros Hres Hacc. split; [|split].
  - unfold UserTerms_save. by rewrite decide_True.
  - by eapply accept_terms_duplicate.
  - rewrite accept_all_cons. by erewrite accept_terms_duplicate.
Qed.

Lemma accept_all_duplicate_witness :
  accept_all Site.settings Site.alice "203.0.113.5" ["2"; "3"]
    (Site.world [mkUserTerms 10 2 "198.51.100.7" 250])
  = accept_all Site.settings Site.alice "203.0.113.5" ["3"]
      (Site.world [mkUserTerms 10 2 "198.51.100.7" 250]).
Proof.
  apply (accept_all_duplicate Site.settings Site.alice "203.0.113.5" "2"
           Site.site_terms_2 ["3"] (Site.world [mkUserTerms 10 2 "198.51.100.7" 250])).
  - exists 2. split; reflexivity.
  - apply Exists_cons_hd. split; reflexivity.
Defined.

Lemma filter_pk_none (pk : Z) (rows : list Terms) :
  Forall (λ t, terms_pk t ≠ pk) rows →
  filter (λ t, terms_pk t = pk) rows = [].
Proof.
  induction 1 as [|t l Hne _ IH]; [reflexivity|].
  by rewrite filter_cons_False.
Qed.

(** C1 (as amended): when the ids before an id that names no terms row
    are processed without an exception, the loop processes them and then
    the [DoesNotExist] of the lookup leaves the loop: the id is not
    skipped and the ids after it are not processed. The world is the one
    the earlier ids left. *)
Theorem accept_all_not_found `{Host} (st : Settings) (u : User) (ip : string)
    (before : list string) (terms_id : string) (rest : list string) (pk : Z)
    (w w' : World) :
  accept_all st u ip before w = (Ok (), w') →
  py_int terms_id = Some pk →
  Forall (λ t, terms_pk t ≠ pk) (terms_table w) →
  accept_all st u ip (before ++ terms_id :: rest)%list w = (Raise DoesNotExist, w').
Proof.
  intros Hbefore Hint Hnone.
  rewrite accept_all_app, Hbefore, accept_all_cons.
  apply accept_all_frame in Hbefore as (Ht & _).
  erewrite accept_terms_lookup_error; [reflexivity|exact Hint| |done].
  rewrite Ht.
  by rewrite (filter_pk_none pk (terms_table w) Hnone).
Qed.

Lemma accept_all_not_found_witness :
  ∃ w', accept_all Site.settings Site.alice "203.0.113.5" ["2"] (Site.world [])
        = (Ok (), w')
        ∧ accept_all Site.settings Site.alice "203.0.113.5" ["2"; "7"; "3"]
            (Site.world [])
          = (Raise DoesNotExist, w').
Proof.
  eexists. split; [reflexivity|].
  apply (accept_all_not_found Site.settings Site.alice "203.0.113.5" ["2"] "7" ["3"] 7).
  - reflexivity.
  - reflexivity.
  - repeat constructor; discriminate.
Defined.

(** C1 as stated fails: the batch 2, 7, 3, where 7 names no row, ends in
    [DoesNotExist] out of [post]; the row for 2 is there and none for 3. *)
Lemma post_not_found_counterexample :
  let req := Site.request ["2"; "7"; "3"] {[ "REMOTE_ADDR" := "203.0.113.5" ]} in
  let r := post Site.settings req (Site.world []) in
  filter (λ t, terms_pk t = 7) (terms_table (Site.world [])) = []
  ∧ r.1 = Raise DoesNotExist
  ∧ userterms_table r.2 = [mkUserTerms 10 2 "203.0.113.5" 300].
Proof. vm_compute. done. Qed.

(** ** The recorded address *)

Lemma prefix_comma (c : ascii) (s : string) :
  String.prefix "," (String c s) = bool_decide (c = ","%char).
Proof.
  change (String.prefix "," (String c s))
    with (if Ascii.ascii_dec "," c then String.prefix "" s else false).
  destruct (Ascii.ascii_dec "," c) as [<-|Hne].
  - rewrite bool_decide_eq_true_2 by done. by destruct s.
  - rewrite bool_decide_eq_false_2 by congruence. done.
Qed.

Lemma str_in_comma_cons (c : ascii) (s : string) :
  str_in "," (String c s) = bool_decide (c = ","%char) || str_in "," s.
Proof. cbn [str_in]. by rewrite prefix_comma. Qed.

Lemma split_first (s : string) :
  ∃ first fields,
    split "," s = first :: fields
    ∧ str_in "," first = false
    ∧ (str_in "," s = true → ∃ rest, s = first ++ "," ++ rest).
Proof.
  induction s as [|c s (first & fields & Hsplit & Hfirst & Hrest)].
  { exists EmptyString, []. repeat split. discriminate. }
  cbn [split]. destruct (decide (c = ","%char)) as [->|Hne].
  - exists EmptyString, (split "," s). repeat split. intros _. by exists s.
  - rewrite Hsplit. exists (String c first), fields. split; [done|].
    rewrite !str_in_comma_cons, bool_decide_eq_false_2 by done. split; [done|].
    simpl. intros (rest & ->)%Hrest. by exists rest.
Qed.







(** [post] only ever appends acceptance rows, and every row it appends
    carries the address extracted from the request. *)
Lemma post_new_rows `{Host} (st : Settings) (req : Request) (w w' : World) r :
  post st req w = (r, w') →
  ∃ new, userterms_table w' = (userterms_table w ++ new)%list
         ∧ ∀ ip, get_ip_address st req = Ok ip →
                 Forall (λ row, ip_address row = ip) new.
Proof.
  intros [->|(u & ip & r0 & _ & Hip & Hall)]%post_cases.
  - exists []. by rewrite app_nil_r.
  - apply accept_all_frame in Hall as (_ & _ & _ & _ & _ & new & Hnew & Hrows).
    exists new. split; [done|]. intros ip' Hip'.
    rewrite Hip in Hip'. injection Hip' as <-.
    eapply Forall_impl; [exact Hrows|]. by intros row [_ ?].
Qed.



(** ** get_terms by slug and version *)

Section latest_facts.
Context `{Host}.





End latest_facts.



(** ** The not-agreed set *)

Global Instance slug_le_trans : Transitive slug_le.
Proof. intros a b c. unfold slug_le. apply (transitivity (R:=String.le)). Qed.

Global Instance slug_le_total : Total slug_le.
Proof. intros a b. unfold slug_le. apply (total String.le). Qed.

Lemma accepted_version_ids_elem_of (u : User) (w : World) (pk : Z) :
  pk ∈ accepted_version_ids u w
  ↔ ∃ row, row ∈ userterms_table w ∧ ut_user row = user_pk u ∧ ut_terms row = pk.
Proof.
  unfold accepted_version_ids. rewrite list_elem_of_omap. split.
  - intros (row & Hrow & Hsome). exists row. split; [done|].
    destruct (decide (ut_user row = user_pk u)); [|done].
    injection Hsome as <-. done.
  - intros (row & Hrow & Hu & <-). exists row. split; [done|].
    by rewrite decide_True.
Qed.

Lemma excluded_iff (u : User) (w : World) (t : Terms) :
  Forall (λ r, ut_terms r ≠ terms_pk t) (UserTerms_filter_user u w)
  ↔ terms_pk t ∉ accepted_version_ids u w.
Proof.
  rewrite Forall_forall, accepted_version_ids_elem_of.
  unfold UserTerms_filter_user. split.
  - intros Hall (row & Hrow & Hu & Hpk). apply (Hall row); [|done].
    by apply list_elem_of_filter.
  - intros Hnot row [Hu Hrow]%list_elem_of_filter Hpk. apply Hnot. by exists row.
Qed.

Lemma not_agreed_terms_resolve `{Host} (u : User) (w : World) :
  not_agreed_terms u w = resolve u w.
Proof.
  unfold not_agreed_terms, resolve, order_by_slug, exclude_userterms_in.
  f_equal. apply list_filter_iff. intros t. apply excluded_iff.
Qed.

Lemma not_agreed_terms_sorted `{Host} (u : User) (w : World) :
  Sorted slug_le (not_agreed_terms u w).
Proof. apply (Sorted_merge_sort slug_le). Qed.

Lemma not_agreed_terms_elem_of `{Host} (u : User) (w : World) (t : Terms) :
  t ∈ not_agreed_terms u w
  ↔ t ∈ get_active_terms_list w ∧ terms_pk t ∉ accepted_version_ids u w.
Proof.
  unfold not_agreed_terms, order_by_slug, exclude_userterms_in.
  rewrite (merge_sort_Permutation slug_le), list_elem_of_filter, excluded_iff.
  tauto.
Qed.

(** The accepted ids are those of the rows counted by [accepted]. *)
Lemma accepted_iff (u : User) (pk : Z) (w : World) :
  accepted u pk w ↔ pk ∈ accepted_version_ids u w.
Proof.
  unfold accepted. rewrite Exists_exists, accepted_version_ids_elem_of.
  split; intros (row & ? & ? & ?); by exists row.
Qed.

(** ** The cache after the loop *)

Lemma cache_fresh_after_new `{Host} st u t ip w :
  cache_fresh st u (with_fresh_cache st u (with_acceptance u t ip w)).
Proof.
  unfold cache_fresh. cbn [cache with_fresh_cache]. rewrite lookup_insert_eq.
  by rewrite (not_agreed_terms_ext u (with_fresh_cache st u (with_acceptance u t ip w))
                (with_acceptance u t ip w)).
Qed.

Lemma resolves_to_ext `{Host} terms_id t w1 w2 :
  terms_table w1 = terms_table w2 → resolves_to terms_id t w1 → resolves_to terms_id t w2.
Proof. intros Heq (pk & ? & ?). exists pk. by rewrite <- Heq. Qed.

Lemma resolves_to_inj `{Host} terms_id t1 t2 w :
  resolves_to terms_id t1 w → resolves_to terms_id t2 w → t1 = t2.
Proof.
  intros (pk & Hint & Hrow) (pk' & Hint' & Hrow').
  rewrite Hint in Hint'. injection Hint' as <-.
  rewrite Hrow in Hrow'. by injection Hrow'.
Qed.

Lemma accept_all_accepted `{Host} st u ip terms_ids w r w' pk :
  accept_all st u ip terms_ids w = (r, w') →
  accepted u pk w → accepted u pk w'.
Proof.
  intros (_ & _ & _ & _ & _ & new & Hnew & _)%accept_all_frame Hacc.
  unfold accepted. rewrite Hnew. apply Exists_app. by left.
Qed.

(** The cache over the loop: other keys are left alone, and the entry
    of the user is rewritten from the tables unless the world is as it
    was. *)
Lemma accept_all_cache `{Host} st u ip terms_ids w r w' :
  accept_all st u ip terms_ids w = (r, w') →
  (w' = w ∨ cache_fresh st u w')
  ∧ ∀ key, key ≠ not_agreed_key u → cache w' !! key = cache w !! key.
Proof.
  revert w. induction terms_ids as [|terms_id rest IH]; intros w.
  { intros [= _ <-]. split; [by left|done]. }
  rewrite accept_all_cons.
  destruct (accept_terms_cases st u ip terms_id w)
    as [(e & _ & ->)|[->|(t & _ & _ & ->)]].
  - intros [= _ <-]. split; [by left|done].
  - apply IH.
  - intros [Hfresh Hother]%IH. split.
    + right. destruct Hfresh as [->|?]; [apply cache_fresh_after_new|done].
    + intros key Hkey. rewrite Hother by done.
      cbn [cache with_fresh_cache with_acceptance]. by rewrite lookup_insert_ne.
Qed.

(** A batch whose ids all name a terms row runs to the end. *)
Lemma accept_all_resolving `{Host} st u ip terms_ids w :
  Forall (λ terms_id, ∃ t, resolves_to terms_id t w) terms_ids →
  ∃ w',
    accept_all st u ip terms_ids w = (Ok (), w')
    ∧ (cache_fresh st u w → cache_fresh st u w')
    ∧ (Exists (λ terms_id, ∃ t, resolves_to terms_id t w
                                ∧ ¬ accepted u (terms_pk t) w) terms_ids →
       cache_fresh st u w')
    ∧ (Forall (λ terms_id, ∃ t, resolves_to terms_id t w
                                ∧ accepted u (terms_pk t) w) terms_ids →
       w' = w)
    ∧ (∀ terms_id t, terms_id ∈ terms_ids → resolves_to terms_id t w →
                     accepted u (terms_pk t) w').
Proof.
  revert w. induction terms_ids as [|terms_id rest IH]; intros w Hall.
  { exists w. repeat split; try done.
    - by intros ?%Exists_nil.
    - by intros ?? ?%elem_of_nil. }
  apply Forall_cons in Hall as [(t & Hres) Hall].
  destruct (decide (accepted u (terms_pk t) w)) as [Hacc|Hacc].
  - destruct (IH w Hall) as (w' & Hrun & Hkeep & Hnew & Hdup & Hdone).
    exists w'. rewrite accept_all_cons, (accept_terms_duplicate st u ip _ t) by done.
    repeat split; try done.
    + intros [(t' & Hres' & Hnot)|?]%Exists_cons; [|by apply Hnew].
      by rewrite (resolves_to_inj _ _ _ _ Hres' Hres) in Hnot.
    + intros [_ ?]%Forall_cons. by apply Hdup.
    + intros terms_id' t' [->|?]%elem_of_cons Hres'; [|by eapply Hdone].
      rewrite (resolves_to_inj _ _ _ _ Hres' Hres).
      by eapply accept_all_accepted.
  - set (w1 := with_fresh_cache st u (with_acceptance u t ip w)).
    assert (terms_table w1 = terms_table w) as Htable by reflexivity.
    destruct (IH w1) as (w' & Hrun & Hkeep & _ & _ & Hdone).
    { eapply Forall_impl; [exact Hall|]. intros terms_id' (t' & Hres').
      exists t'. by eapply resolves_to_ext. }
    assert (cache_fresh st u w') as Hfresh
      by apply Hkeep, cache_fresh_after_new.
    exists w'. rewrite accept_all_cons, (accept_terms_new st u ip _ t) by done.
    repeat split; try done.
    + intros [(t' & Hres' & Hdup) _]%Forall_cons.
      by rewrite (resolves_to_inj _ _ _ _ Hres' Hres) in Hdup.
    + intros terms_id' t' [->|?]%elem_of_cons Hres'.
      * rewrite (resolves_to_inj _ _ _ _ Hres' Hres).
        eapply accept_all_accepted; [exact Hrun|].
        unfold accepted. cbn [userterms_table w1 with_fresh_cache with_acceptance].
        apply Exists_app. right. by apply Exists_cons_hd.
      * eapply Hdone; [done|]. by eapply resolves_to_ext.
Qed.

(** C5: the sequence [post] writes to the cache is the not-agreed set in
    the words of the specification: the active terms minus the versions
    whose id the user has accepted, ordered by slug ascending. This holds
    of the queryset itself, of each write of the loop body, and of the
    entry [post] leaves behind. *)
Theorem cached_sequence_is_not_agreed_set `{Host} (st : Settings) :
  (∀ u w,
     not_agreed_terms u w = resolve u w
     ∧ Sorted slug_le (not_agreed_terms u w)
     ∧ ∀ t, t ∈ not_agreed_terms u w
            ↔ t ∈ get_active_terms_list w ∧ terms_pk t ∉ accepted_version_ids u w)
  ∧ (∀ u ip terms_id w,
       let w' := (accept_terms st u ip terms_id w).2 in
       cache w' = cache w
       ∨ cache w' = <[not_agreed_key u := (resolve u w', TERMS_CACHE_SECONDS st)]>
                      (cache w))
  ∧ (∀ req w,
       let w' := (post st req w).2 in
       w' = w
       ∨ ∃ u, accepting_user req w = (Ok (Some u), w)
              ∧ cache w' !! not_agreed_key u
                = Some (resolve u w', TERMS_CACHE_SECONDS st)
              ∧ ∀ key, key ≠ not_agreed_key u → cache w' !! key = cache w !! key).
Proof.
  split; [|split].
  - intros u w. split; [apply not_agreed_terms_resolve|].
    split; [apply not_agreed_terms_sorted | apply not_agreed_terms_elem_of].
  - intros u ip terms_id w.
    destruct (accept_terms_cases st u ip terms_id w)
      as [(e & _ & ->)|[->|(t & _ & _ & ->)]]; [by left..|].
    right. cbn [snd cache with_fresh_cache with_acceptance].
    rewrite <- not_agreed_terms_resolve.
    by rewrite (not_agreed_terms_ext u (with_fresh_cache st u (with_acceptance u t ip w))
                  (with_acceptance u t ip w)).
  - intros req w. destruct (post st req w) as [r w'] eqn:Hpost. cbn [snd].
    apply post_cases in Hpost as [->|(u & ip & r0 & Hu & _ & Hall)]; [by left|].
    apply accept_all_cache in Hall as [[->|Hfresh] Hother]; [by left|].
    right. exists u. rewrite <- not_agreed_terms_resolve. done.
Qed.

Lemma get_ip_address_available `{Host} (st : Settings) (req : Request) :
  address_available st req → ∃ ip, get_ip_address st req = Ok ip.
Proof.
  unfold address_available, get_ip_address. intros [->|[header ->]]; [by eexists|].
  destruct (default true (TERMS_STORE_IP_ADDRESS st)); [|by eexists].
  destruct (str_in "," header); [|by eexists].
  destruct (split_first header) as (first & fields & -> & _). by eexists.
Qed.

(** C2 (as amended): for a batch whose ids all name a terms row, run by
    [post] for an identified user on a request that has an address to
    record (IP storage off, or the configured header present), [post]
    ends with its redirect and every terms row of the batch is accepted
    and outside the not-agreed set of the final tables. If at least one
    id was not yet accepted the cache entry under the user's key holds
    that not-agreed set; if every id was already accepted [post] leaves
    the world, and so the cache, as it was. *)
Theorem post_refreshes_cache `{Host} (st : Settings) (req : Request) (u : User)
    (w : World) :
  accepting_user req w = (Ok (Some u), w) →
  address_available st req →
  Forall (λ terms_id, ∃ t, resolves_to terms_id t w) (getlist (POST req) "terms") →
  ∃ w',
    post st req w = (Ok (HttpResponseRedirect (get_return_to st (POST req))), w')
    ∧ (∀ terms_id t, terms_id ∈ getlist (POST req) "terms" →
                     resolves_to terms_id t w →
                     accepted u (terms_pk t) w' ∧ t ∉ resolve u w')
    ∧ (Exists (λ terms_id, ∃ t, resolves_to terms_id t w
                                ∧ ¬ accepted u (terms_pk t) w)
              (getlist (POST req) "terms") →
       cache w' !! not_agreed_key u
       = Some (resolve u w', TERMS_CACHE_SECONDS st))
    ∧ (Forall (λ terms_id, ∃ t, resolves_to terms_id t w
                                ∧ accepted u (terms_pk t) w)
              (getlist (POST req) "terms") →
       w' = w).
Proof.
  intros Hu [ip Hip]%get_ip_address_available Hall.
  destruct (decide (getlist (POST req) "terms" = [])) as [Hids|Hids].
  { exists w. rewrite post_no_terms by done. rewrite Hids.
    split; [done|]. split; [by intros ?? ?%elem_of_nil|].
    split; [by intros ?%Exists_nil | done]. }
  destruct (accept_all_resolving st u ip _ w Hall)
    as (w' & Hrun & _ & Hnew & Hdup & Hdone).
  exists w'. rewrite (post_identified st req u w Hids Hu), Hip.
  erewrite bind_ok by exact Hrun. split; [done|]. split; [|split; [|done]].
  - intros terms_id t Hid Hres. split; [by eapply Hdone|].
    rewrite <- not_agreed_terms_resolve.
    intros [_ Hnot]%not_agreed_terms_elem_of. apply Hnot, accepted_iff.
    by eapply Hdone.
  - intros Hsome. rewrite <- not_agreed_terms_resolve. by apply Hnew.
Qed.

Lemma cached_sequence_is_not_agreed_set_witness :
  let req := Site.request ["2"] {[ "REMOTE_ADDR" := "203.0.113.5" ]} in
  let w := Site.world [mkUserTerms 11 3 "198.51.100.7" 250] in
  let w' := (post Site.settings req w).2 in
  cache w' !! not_agreed_key Site.alice = Some ([Site.contrib_terms], 30)
  ∧ (w' = w
     ∨ ∃ u, accepting_user req w = (Ok (Some u), w)
            ∧ cache w' !! not_agreed_key u
              = Some (resolve u w', TERMS_CACHE_SECONDS Site.settings)
            ∧ ∀ key, key ≠ not_agreed_key u → cache w' !! key = cache w !! key).
Proof.
  intros req w w'. split; [reflexivity|].
  exact (proj2 (proj2 (cached_sequence_is_not_agreed_set Site.settings)) req w).
Defined.

Lemma post_refreshes_cache_witness :
  let req := Site.request ["2"; "2"; "3"] {[ "REMOTE_ADDR" := "203.0.113.5" ]} in
  ∃ w',
    post Site.settings req (Site.world [])
    = (Ok (HttpResponseRedirect "/home/"), w')
    ∧ cache w' !! not_agreed_key Site.alice
      = Some (resolve Site.alice w', TERMS_CACHE_SECONDS Site.settings)
    ∧ cache w' !! not_agreed_key Site.alice = Some ([], 30).
Proof.
  intros req.
  assert (resolves_to "2" Site.site_terms_2 (Site.world [])) as H2
    by (exists 2; split; reflexivity).
  assert (resolves_to "3" Site.contrib_terms (Site.world [])) as H3
    by (exists 3; split; reflexivity).
  destruct (post_refreshes_cache Site.settings req Site.alice (Site.world []) eq_refl)
    as (w' & Hpost & _ & Hfresh & _).
  { right. by eexists. }
  { repeat constructor; eauto. }
  exists w'. split; [exact Hpost|]. split.
  - apply Hfresh. apply Exists_cons_hd. exists Site.site_terms_2.
    split; [exact H2|]. intros Hacc. inversion Hacc.
  - injection Hpost as <-. reflexivity.
Defined.

(** C2 as stated fails: Alice has already accepted version 2.0 and
    submits its id again. [post] redirects as usual, but the duplicate
    skips the cache write: with no entry before there is none after, and
    an entry that still lists version 2.0 stays as it is. And a batch
    sent without the configured header, with IP storage on, ends in
    [TypeError] before anything is accepted or cached. *)
Lemma post_duplicate_cache_counterexample :
  let req := Site.request ["2"] {[ "REMOTE_ADDR" := "203.0.113.5" ]} in
  let accepted_2 := Site.world [mkUserTerms 10 2 "198.51.100.7" 250] in
  let r := post Site.settings req accepted_2 in
  let r' := post Site.settings req Site.world_stale in
  let r'' := post Site.settings (Site.request ["2"] ∅) (Site.world []) in
  (r.1 = Ok (HttpResponseRedirect "/home/")
   ∧ cache r.2 !! not_agreed_key Site.alice = None
   ∧ ¬ cache_fresh Site.settings Site.alice r.2)
  ∧ (r'.1 = Ok (HttpResponseRedirect "/home/")
     ∧ not_agreed_terms Site.alice r'.2 = [Site.contrib_terms]
     ∧ cache r'.2 !! not_agreed_key Site.alice
       = Some ([Site.contrib_terms; Site.site_terms_2], 30)
     ∧ ¬ cache_fresh Site.settings Site.alice r'.2)
  ∧ (r''.1 = Raise TypeError
     ∧ userterms_table r''.2 = []
     ∧ cache r''.2 !! not_agreed_key Site.alice = None).
Proof.
  intros req accepted_2 r r' r''. split; [|split].
  - split; [reflexivity|]. split; [reflexivity|].
    unfold cache_fresh. by replace (cache r.2 !! not_agreed_key Site.alice)
      with (@None (list Terms * Z)) by reflexivity.
  - split; [reflexivity|]. split; [reflexivity|]. split; [reflexivity|].
    unfold cache_fresh.
    replace (cache r'.2 !! not_agreed_key Site.alice)
      with (Some ([Site.contrib_terms; Site.site_terms_2], 30)) by reflexivity.
    replace (not_agreed_terms Site.alice r'.2) with [Site.contrib_terms]
      by reflexivity.
    discriminate.
  - repeat split.
Qed.


(** * Further properties of the views *)

(** ** Who accepts *)

Lemma accepting_user_pipeline `{Host} (req : Request) (pipeline : pyobj) (w : World) :
  user req = None →
  session req !! "partial_pipeline" = Some pipeline →
  accepting_user req w
  = match pipeline_user_pk pipeline with
    | Ok user_pk_value =>
        match User_get user_pk_value w with
        | (Ok u, w') => (Ok (Some u), w')
        | (Raise e, w') => (Raise e, w')
        end
    | Raise e => (Raise e, w)
    end.
Proof.
  intros Huser Hsession. unfold accepting_user. rewrite Huser, Hsession.
  unfold mbind at 1, M_bind, lift, pipeline_user_pk.
  destruct (_ ≫= _) as [user_pk_value|e]; [|reflexivity].
  unfold mbind, M_bind. by destruct (User_get user_pk_value w) as [[u|e] w'].
Qed.

Lemma post_user_failure `{Host} (st : Settings) (req : Request) (w : World) e :
  getlist (POST req) "terms" ≠ [] →
  accepting_user req w = (Raise e, w) →
  post st req w = (Raise e, w).
Proof.
  intros Hids Hu. unfold post. rewrite decide_False by done.
  by erewrite bind_raise by exact Hu.
Qed.

(** X1: a POST with terms ids from a visitor who is neither logged in
    nor in a pipeline is answered by a redirect to the root, not to the
    posted return URL, and changes nothing. *)
Theorem post_visitor_redirects_to_root `{Host} (st : Settings) (req : Request)
    (w : World) :
  getlist (POST req) "terms" ≠ [] →
  user req = None →
  session req !! "partial_pipeline" = None →
  post st req w = (Ok (HttpResponseRedirect "/"), w).
Proof.
  intros Hids Huser Hsession. unfold post. rewrite decide_False by done.
  unfold accepting_user. by rewrite Huser, Hsession.
Qed.

Lemma post_visitor_redirects_to_root_witness :
  post Site.settings (Site.visitor_request ["2"] ∅ ∅) (Site.world [])
  = (Ok (HttpResponseRedirect "/"), Site.world []).
Proof.
  apply (post_visitor_redirects_to_root Site.settings
           (Site.visitor_request ["2"] ∅ ∅) (Site.world [])).
  - discriminate.
  - reflexivity.
  - reflexivity.
Defined.

(** X2: when the session's partial pipeline names the primary key of a
    user row, [post] does for the visitor exactly what it does for that
    user logged in. *)
Theorem post_pipeline_user `{Host} (st : Settings) (req : Request)
    (pipeline : pyobj) (n : Z) (u : User) (w : World) :
  user req = None →
  session req !! "partial_pipeline" = Some pipeline →
  pipeline_user_pk pipeline = Ok (PInt n) →
  filter (λ u, user_pk u = n) (user_table w) = [u] →
  post st req w = post st (as_user u req) w.
Proof.
  intros Huser Hsession Hpk Hrow.
  destruct (decide (getlist (POST req) "terms" = [])) as [Hids|Hids].
  { rewrite !post_no_terms by done. reflexivity. }
  assert (accepting_user req w = (Ok (Some u), w)) as Hu.
  { rewrite (accepting_user_pipeline req pipeline w Huser Hsession), Hpk.
    unfold User_get. by rewrite Hrow. }
  rewrite (post_identified st req u w Hids Hu).
  by rewrite (post_identified st (as_user u req) u w Hids).
Qed.

Lemma post_pipeline_user_witness :
  let meta : gmap string string := {[ "REMOTE_ADDR" := "203.0.113.5" ]} in
  post Site.settings
    (Site.visitor_request ["2"] meta {[ "partial_pipeline" := Site.pipeline (PInt 10) ]})
    (Site.world [])
  = post Site.settings (Site.request ["2"] meta) (Site.world []).
Proof.
  intros meta.
  exact (post_pipeline_user Site.settings
           (Site.visitor_request ["2"] meta
              {[ "partial_pipeline" := Site.pipeline (PInt 10) ]})
           (Site.pipeline (PInt 10)) 10 Site.alice (Site.world [])
           eq_refl eq_refl eq_refl eq_refl).
Defined.

(** X3: a pipeline entry that cannot be followed down to a user stops
    [post] before anything is written: a missing key on the way raises
    the error of the subscript, and a primary key without a user row
    raises [DoesNotExist]. *)
Theorem post_pipeline_failure `{Host} (st : Settings) (req : Request)
    (pipeline : pyobj) (w : World) :
  getlist (POST req) "terms" ≠ [] →
  user req = None →
  session req !! "partial_pipeline" = Some pipeline →
  (∀ e, pipeline_user_pk pipeline = Raise e → post st req w = (Raise e, w))
  ∧ (∀ n, pipeline_user_pk pipeline = Ok (PInt n) →
          Forall (λ u, user_pk u ≠ n) (user_table w) →
          post st req w = (Raise DoesNotExist, w)).
Proof.
  intros Hids Huser Hsession. split.
  - intros e Hpk. apply post_user_failure; [done|].
    by rewrite (accepting_user_pipeline req pipeline w Huser Hsession), Hpk.
  - intros n Hpk Hnone. apply post_user_failure; [done|].
    rewrite (accepting_user_pipeline req pipeline w Huser Hsession), Hpk.
    unfold User_get.
    replace (filter (λ u, user_pk u = n) (user_table w)) with (@nil User);
      [reflexivity|].
    symmetry. clear -Hnone. induction Hnone as [|u l Hne _ IH]; [reflexivity|].
    by rewrite filter_cons_False.
Qed.

Lemma post_pipeline_failure_witness :
  post Site.settings
    (Site.visitor_request ["2"] ∅ {[ "partial_pipeline" := PDict ∅ ]}) (Site.world [])
  = (Raise KeyError, Site.world [])
  ∧ post Site.settings
      (Site.visitor_request ["2"] ∅ {[ "partial_pipeline" := Site.pipeline (PInt 11) ]})
      (Site.world [])
    = (Raise DoesNotExist, Site.world []).
Proof.
  split.
  - apply (proj1 (post_pipeline_failure Site.settings
             (Site.visitor_request ["2"] ∅ {[ "partial_pipeline" := PDict ∅ ]})
             (PDict ∅) (Site.world []) ltac:(discriminate) eq_refl eq_refl)).
    reflexivity.
  - apply (proj2 (post_pipeline_failure Site.settings
             (Site.visitor_request ["2"] ∅
                {[ "partial_pipeline" := Site.pipeline (PInt 11) ]})
             (Site.pipeline (PInt 11)) (Site.world [])
             ltac:(discriminate) eq_refl eq_refl) 11).
    + reflexivity.
    + repeat constructor. discriminate.
Defined.

(** ** What a batch writes *)

Lemma accept_all_rows `{Host} st u ip terms_ids w r w' :
  accept_all st u ip terms_ids w = (r, w') →
  ∃ new, userterms_table w' = (userterms_table w ++ new)%list
         ∧ (length new ≤ length terms_ids)%nat
         ∧ Forall (λ row, ut_user row = user_pk u
                          ∧ date_accepted row = now w
                          ∧ ∃ terms_id t, terms_id ∈ terms_ids
                                          ∧ resolves_to terms_id t w
                                          ∧ ut_terms row = terms_pk t) new.
Proof.
  revert w. induction terms_ids as [|terms_id rest IH]; intros w.
  { intros [= _ <-]. exists []. rewrite app_nil_r. by repeat split. }
  rewrite accept_all_cons.
  destruct (accept_terms_cases st u ip terms_id w)
    as [(e & _ & ->)|[->|(t & Hres & _ & ->)]].
  - intros [= _ <-]. exists []. rewrite app_nil_r. repeat split; simpl; [lia|done].
  - intros (new & Hnew & Hlen & Hrows)%IH. exists new.
    split; [done|]. split; [simpl; lia|].
    eapply Forall_impl; [exact Hrows|]. intros row (? & ? & id & t & ? & ? & ?).
    repeat split; try done. exists id, t. split; [by right|done].
  - intros (new & Hnew & Hlen & Hrows)%IH.
    exists (mkUserTerms (user_pk u) (terms_pk t) ip (now w) :: new).
    split; [by rewrite Hnew; simpl; rewrite <- app_assoc|].
    split; [simpl; lia|]. constructor.
    + repeat split. exists terms_id, t. split; [by left|done].
    + eapply Forall_impl; [exact Hrows|]. intros row (? & ? & id & t' & ? & ? & ?).
      repeat split; try done. exists id, t'. split; [by right|done].
Qed.

(** X4: [post] never touches the terms rows, the user rows, the message
    queue, the outgoing mail or the clock, and never removes or changes
    an acceptance row: the table it leaves starts with the table it
    found. *)
Theorem post_frame `{Host} (st : Settings) (req : Request) (w : World) :
  let w' := (post st req w).2 in
  terms_table w' = terms_table w
  ∧ user_table w' = user_table w
  ∧ messages w' = messages w
  ∧ outbox w' = outbox w
  ∧ now w' = now w
  ∧ userterms_table w `prefix_of` userterms_table w'.
Proof.
  destruct (post st req w) as [r w'] eqn:Hpost. cbn [snd].
  apply post_cases in Hpost as [->|(u & ip & r0 & _ & _ & Hall)]; [done|].
  apply accept_all_frame in Hall as (? & ? & ? & ? & ? & new & Hnew & _).
  repeat split; try done. by exists new.
Qed.

(** X5: the acceptance rows [post] adds are at most one per submitted
    id; each is stamped with the current time, belongs to the accepting
    user, and points to a terms row that one of the submitted ids names. *)
Theorem post_rows_provenance `{Host} (st : Settings) (req : Request) (w : World) :
  ∃ new,
    userterms_table (post st req w).2 = (userterms_table w ++ new)%list
    ∧ (length new ≤ length (getlist (POST req) "terms"))%nat
    ∧ Forall (λ row,
        date_accepted row = now w
        ∧ (∃ u, accepting_user req w = (Ok (Some u), w) ∧ ut_user row = user_pk u)
        ∧ ∃ terms_id t, terms_id ∈ getlist (POST req) "terms"
                        ∧ resolves_to terms_id t w
                        ∧ ut_terms row = terms_pk t) new.
Proof.
  destruct (post st req w) as [r w'] eqn:Hpost. cbn [snd].
  apply post_cases in Hpost as [->|(u & ip & r0 & Hu & _ & Hall)].
  { exists []. rewrite app_nil_r. repeat split; [simpl; lia|done]. }
  apply accept_all_rows in Hall as (new & Hnew & Hlen & Hrows).
  exists new. repeat split; try done.
  eapply Forall_impl; [exact Hrows|]. intros row (? & ? & ?).
  repeat split; try done. by exists u.
Qed.

Lemma accepted_key (u : User) (pk : Z) (w : World) :
  accepted u pk w
  ↔ (user_pk u, pk) ∈ (λ r, (ut_user r, ut_terms r)) <$> userterms_table w.
Proof.
  unfold accepted. rewrite Exists_exists, list_elem_of_fmap. split.
  - intros (r & Hr & <- & <-). by exists r.
  - intros (r & [= -> ->] & Hr). by exists r.
Qed.

Lemma accept_all_unique `{Host} st u ip terms_ids w r w' :
  accept_all st u ip terms_ids w = (r, w') →
  unique_acceptances w → unique_acceptances w'.
Proof.
  revert w. induction terms_ids as [|terms_id rest IH]; intros w.
  { by intros [= _ <-]. }
  rewrite accept_all_cons.
  destruct (accept_terms_cases st u ip terms_id w)
    as [(e & _ & ->)|[->|(t & _ & Hnot & ->)]].
  - by intros [= _ <-].
  - apply IH.
  - intros Hrest Huniq. apply (IH _ Hrest).
    unfold unique_acceptances in *.
    cbn [userterms_table with_fresh_cache with_acceptance].
    rewrite fmap_app. apply NoDup_app. split; [done|]. split.
    + intros key Hkey [->|[]%elem_of_nil]%elem_of_cons.
      by apply Hnot, accepted_key.
    + apply NoDup_singleton.
Qed.

(** X6: [post] keeps the acceptance table free of doubles: when no two
    rows share user and terms before, none do after, whatever ids are
    submitted and however the call ends. *)
Theorem post_keeps_acceptances_unique `{Host} (st : Settings) (req : Request)
    (w : World) :
  unique_acceptances w → unique_acceptances (post st req w).2.
Proof.
  intros Huniq. destruct (post st req w) as [r w'] eqn:Hpost. cbn [snd].
  apply post_cases in Hpost as [->|(u & ip & r0 & _ & _ & Hall)]; [done|].
  by eapply accept_all_unique.
Qed.

Lemma post_keeps_acceptances_unique_witness :
  unique_acceptances
    (post Site.settings
       (Site.request ["2"; "2"; "3"] {[ "REMOTE_ADDR" := "203.0.113.5" ]})
       (Site.world [mkUserTerms 10 3 "198.51.100.7" 250])).2.
Proof.
  apply (post_keeps_acceptances_unique Site.settings).
  unfold unique_acceptances. simpl. apply NoDup_singleton.
Defined.

(** X7: an id that [int] rejects ends the batch with [ValueError]: the
    ids before it have been processed and keep their effect, the ids
    after it are not looked at. *)
Theorem accept_all_value_error `{Host} (st : Settings) (u : User) (ip : string)
    (before : list string) (terms_id : string) (rest : list string)
    (w w' : World) :
  accept_all st u ip before w = (Ok (), w') →
  py_int terms_id = None →
  accept_all st u ip (before ++ terms_id :: rest)%list w = (Raise ValueError, w').
Proof.
  intros Hbefore Hint.
  rewrite accept_all_app, Hbefore, accept_all_cons.
  by rewrite accept_terms_value_error.
Qed.

Lemma accept_all_value_error_witness :
  ∃ w', accept_all Site.settings Site.alice "203.0.113.5" ["2"] (Site.world [])
        = (Ok (), w')
        ∧ accept_all Site.settings Site.alice "203.0.113.5" ["2"; "two"; "3"]
            (Site.world [])
          = (Raise ValueError, w').
Proof.
  eexists. split; [reflexivity|].
  apply (accept_all_value_error Site.settings Site.alice "203.0.113.5" ["2"] "two" ["3"]).
  - reflexivity.
  - reflexivity.
Defined.

(** ** The address that is recorded *)





(** X10: with [TERMS_STORE_IP_ADDRESS] switched off the request metadata
    is not consulted: the address is the empty text whether or not the
    header is there, and every row [post] adds carries it. *)
Theorem post_without_ip_storage `{Host} (st : Settings) (req : Request) (w : World) :
  TERMS_STORE_IP_ADDRESS st = Some false →
  get_ip_address st req = Ok EmptyString
  ∧ ∃ new,
      userterms_table (post st req w).2 = (userterms_table w ++ new)%list
      ∧ Forall (λ row, ip_address row = EmptyString) new.
Proof.
  intros Hstore.
  assert (get_ip_address st req = Ok EmptyString) as Hip.
  { unfold get_ip_address. by rewrite Hstore. }
  split; [done|].
  destruct (post st req w) as [r w'] eqn:Hpost. cbn [snd].
  apply post_new_rows in Hpost as (new & Hnew & Hrows).
  exists new. split; [done|]. by apply Hrows.
Qed.

Lemma post_without_ip_storage_witness :
  let r := post Site.settings_no_ip (Site.request ["2"] ∅) (Site.world []) in
  r.1 = Ok (HttpResponseRedirect "/home/")
  ∧ get_ip_address Site.settings_no_ip (Site.request ["2"] ∅) = Ok EmptyString
  ∧ ∃ new,
      userterms_table r.2 = new
      ∧ Forall (λ row, ip_address row = EmptyString) new.
Proof.
  intros r. split; [reflexivity|].
  exact (post_without_ip_storage Site.settings_no_ip (Site.request ["2"] ∅)
           (Site.world []) eq_refl).
Defined.

(** ** What is still to be agreed to *)

Lemma get_active_terms_list_ext `{Host} (w1 w2 : World) :
  terms_table w1 = terms_table w2 → now w1 = now w2 →
  get_active_terms_list w1 = get_active_terms_list w2.
Proof.
  intros Ht Hn. unfold get_active_terms_list, active_rows. by rewrite Ht, Hn.
Qed.

Lemma accept_all_not_agreed `{Host} st u ip terms_ids w r w' (u' : User) :
  accept_all st u ip terms_ids w = (r, w') →
  (∀ t, t ∈ not_agreed_terms u' w' → t ∈ not_agreed_terms u' w)
  ∧ (user_pk u' ≠ user_pk u → not_agreed_terms u' w' = not_agreed_terms u' w).
Proof.
  intros (Ht & Hn & _ & _ & _ & new & Hnew & Hrows)%accept_all_frame.
  pose proof (get_active_terms_list_ext w' w Ht Hn) as Hactive. split.
  - intros t. rewrite !not_agreed_terms_elem_of, Hactive.
    intros [Hin Hnot]. split; [done|]. intros Hacc. apply Hnot.
    apply accepted_iff. apply accepted_iff in Hacc.
    unfold accepted in *. rewrite Hnew. apply Exists_app. by left.
  - intros Hother. unfold not_agreed_terms. rewrite Hactive. f_equal. f_equal.
    unfold UserTerms_filter_user. rewrite Hnew, filter_app.
    replace (filter (λ r, ut_user r = user_pk u') new) with (@nil UserTerms);
      [by rewrite app_nil_r|].
    symmetry. clear -Hrows Hother. induction Hrows as [|row l [Hrow _] _ IH];
      [reflexivity|].
    rewrite filter_cons_False by congruence. exact IH.
Qed.

(** X11: accepting can only shorten a list of terms still to be agreed
    to. After [post], however it ends, every user's not-agreed set is
    within what it was before, and that of any user other than the
    accepting one is exactly what it was. *)
Theorem post_not_agreed_shrinks `{Host} (st : Settings) (req : Request) (w : World)
    (u' : User) :
  let w' := (post st req w).2 in
  (∀ t, t ∈ not_agreed_terms u' w' → t ∈ not_agreed_terms u' w)
  ∧ (∀ u, accepting_user req w = (Ok (Some u), w) →
          user_pk u' ≠ user_pk u →
          not_agreed_terms u' w' = not_agreed_terms u' w).
Proof.
  destruct (post st req w) as [r w'] eqn:Hpost. cbn [snd].
  apply post_cases in Hpost as [->|(u0 & ip & r0 & Hu0 & _ & Hall)]; [done|].
  destruct (accept_all_not_agreed st u0 ip _ w r0 w' u' Hall) as [Hsub Hsame].
  split; [done|]. intros u Hu Hother. rewrite Hu0 in Hu.
  injection Hu as <-. by apply Hsame.
Qed.

Lemma post_not_agreed_shrinks_witness :
  let bob := mkUser 11 "bob" in
  let req := Site.request ["2"] {[ "REMOTE_ADDR" := "203.0.113.5" ]} in
  not_agreed_terms bob (post Site.settings req (Site.world [])).2
  = not_agreed_terms bob (Site.world []).
Proof.
  intros bob req.
  apply (proj2 (post_not_agreed_shrinks Site.settings req (Site.world []) bob)
           Site.alice).
  - reflexivity.
  - discriminate.
Defined.

(** X12: accepting everything that is pending leaves nothing pending.
    When the user is identified, the request has an address to record
    (IP storage off, or the configured header present), every submitted
    id names a terms row and every terms row the user has still to agree
    to is named by a submitted id, [post] ends with its redirect, the
    user's not-agreed set is empty afterwards, and, if anything was
    pending, the cache entry of the user holds the empty sequence. *)
Theorem post_accepts_all_pending `{Host} (st : Settings) (req : Request) (u : User)
    (w : World) :
  accepting_user req w = (Ok (Some u), w) →
  address_available st req →
  Forall (λ terms_id, ∃ t, resolves_to terms_id t w) (getlist (POST req) "terms") →
  (∀ t, t ∈ not_agreed_terms u w →
        ∃ terms_id, terms_id ∈ getlist (POST req) "terms" ∧ resolves_to terms_id t w) →
  let w' := (post st req w).2 in
  (post st req w).1 = Ok (HttpResponseRedirect (get_return_to st (POST req)))
  ∧ not_agreed_terms u w' = []
  ∧ (not_agreed_terms u w ≠ [] →
     cache w' !! not_agreed_key u = Some ([], TERMS_CACHE_SECONDS st)).
Proof.
  intros Hu [ip Hip]%get_ip_address_available Hall Hpending.
  destruct (accept_all_resolving st u ip _ w Hall)
    as (w' & Hrun & _ & Hnew & _ & Hdone).
  assert (post st req w
          = (Ok (HttpResponseRedirect (get_return_to st (POST req))), w')) as ->.
  { destruct (decide (getlist (POST req) "terms" = [])) as [Hids|Hids].
    - rewrite Hids in Hrun. injection Hrun as <-. by apply post_no_terms.
    - rewrite (post_identified st req u w Hids Hu), Hip.
      by erewrite bind_ok by exact Hrun. }
  cbn [fst snd].
  assert (not_agreed_terms u w' = []) as Hempty.
  { destruct (not_agreed_terms u w') as [|t l] eqn:Hlist; [done|]. exfalso.
    assert (t ∈ not_agreed_terms u w') as Hin by (rewrite Hlist; left).
    pose proof Hin as [_ Hnot]%not_agreed_terms_elem_of.
    apply (accept_all_not_agreed st u ip _ w _ w' u Hrun) in Hin.
    destruct (Hpending t Hin) as (terms_id & Hid & Hres).
    apply Hnot, accepted_iff. by eapply Hdone. }
  split; [done|]. split; [done|].
  intros Hsome. rewrite <- Hempty. apply Hnew.
  assert (∃ t, t ∈ not_agreed_terms u w) as [t Hin].
  { destruct (not_agreed_terms u w) as [|t l]; [done|]. exists t. left. }
  destruct (Hpending t Hin) as (terms_id & Hid & Hres).
  apply Exists_exists. exists terms_id. split; [done|]. exists t. split; [done|].
  apply not_agreed_terms_elem_of in Hin as [_ Hnot].
  by rewrite accepted_iff.
Qed.

Lemma post_accepts_all_pending_witness :
  let req := Site.request ["3"; "2"] {[ "REMOTE_ADDR" := "203.0.113.5" ]} in
  let w' := (post Site.settings req (Site.world [])).2 in
  not_agreed_terms Site.alice (Site.world []) = [Site.contrib_terms; Site.site_terms_2]
  ∧ (post Site.settings req (Site.world [])).1 = Ok (HttpResponseRedirect "/home/")
  ∧ not_agreed_terms Site.alice w' = []
  ∧ (not_agreed_terms Site.alice (Site.world []) ≠ [] →
     cache w' !! not_agreed_key Site.alice = Some ([], 30)).
Proof.
  intros req w'. split; [reflexivity|].
  assert (resolves_to "2" Site.site_terms_2 (Site.world [])) as H2
    by (exists 2; split; reflexivity).
  assert (resolves_to "3" Site.contrib_terms (Site.world [])) as H3
    by (exists 3; split; reflexivity).
  refine (post_accepts_all_pending Site.settings req Site.alice
            (Site.world []) eq_refl _ _ _).
  - right. by eexists.
  - repeat constructor; eauto.
  - intros t Hin.
    change (not_agreed_terms Site.alice (Site.world []))
      with [Site.contrib_terms; Site.site_terms_2] in Hin.
    apply elem_of_cons in Hin as [->|Hin].
    { exists "3". split; [left | exact H3]. }
    apply elem_of_cons in Hin as [->|Hin].
    { exists "2". split; [right; left | exact H2]. }
    by apply elem_of_nil in Hin.
Defined.

(** ** Submitting the same batch again *)

Local Ltac same_outcome :=
  let Hr := fresh "Hr" in
  intros Hr; unfold mret, M_ret in *; by simplify_eq.

Lemma accepting_user_ext `{Host} (req : Request) (w1 w2 : World) r :
  user_table w1 = user_table w2 →
  accepting_user req w1 = (r, w1) →
  accepting_user req w2 = (r, w2).
Proof.
  intros Htable.
  destruct (user req) as [u|] eqn:Huser.
  { unfold accepting_user. rewrite Huser. same_outcome. }
  destruct (session req !! "partial_pipeline") as [pipeline|] eqn:Hsession.
  2: { unfold accepting_user. rewrite Huser, Hsession. same_outcome. }
  rewrite !(accepting_user_pipeline req pipeline) by done.
  destruct (pipeline_user_pk pipeline) as [user_pk_value|e]; [|same_outcome].
  unfold User_get. rewrite Htable.
  destruct user_pk_value as [n|s|items]; [| |same_outcome].
  - destruct (objects_get _); same_outcome.
  - destruct (py_int s); [destruct (objects_get _)|]; same_outcome.
Qed.

(** X13: submitting a batch a second time changes nothing. When the
    user is identified, the request has an address to record (IP storage
    off, or the configured header present) and every submitted id names
    a terms row, the world [post] leaves is a fixed point: the same
    request on it is answered by the same redirect and leaves it as it
    is. *)
Theorem post_twice `{Host} (st : Settings) (req : Request) (u : User) (w : World) :
  accepting_user req w = (Ok (Some u), w) →
  address_available st req →
  Forall (λ terms_id, ∃ t, resolves_to terms_id t w) (getlist (POST req) "terms") →
  let w' := (post st req w).2 in
  post st req w' = (Ok (HttpResponseRedirect (get_return_to st (POST req))), w').
Proof.
  intros Hu [ip Hip]%get_ip_address_available Hall.
  destruct (decide (getlist (POST req) "terms" = [])) as [Hids|Hids].
  { cbn zeta. rewrite (post_no_terms st req w Hids). cbn [snd].
    by apply post_no_terms. }
  destruct (accept_all_resolving st u ip _ w Hall)
    as (w' & Hrun & _ & _ & _ & Hdone).
  assert (post st req w
          = (Ok (HttpResponseRedirect (get_return_to st (POST req))), w')) as ->.
  { rewrite (post_identified st req u w Hids Hu), Hip.
    by erewrite bind_ok by exact Hrun. }
  cbn [snd]. cbn zeta.
  pose proof Hrun as (Htable & _ & Husers & _)%accept_all_frame.
  assert (accepting_user req w' = (Ok (Some u), w')) as Hu'
    by (by eapply accepting_user_ext).
  assert (Forall (λ terms_id, ∃ t, resolves_to terms_id t w'
                                   ∧ accepted u (terms_pk t) w')
                 (getlist (POST req) "terms")) as Hdup.
  { apply Forall_forall. intros terms_id Hid.
    pose proof (proj1 (Forall_forall _ _) Hall terms_id Hid) as (t & Hres).
    exists t. split; [by eapply resolves_to_ext | by eapply Hdone]. }
  destruct (accept_all_resolving st u ip (getlist (POST req) "terms") w')
    as (w'' & Hrun' & _ & _ & Hsame & _).
  { eapply Forall_impl; [exact Hdup|]. intros terms_id (t & ? & _). by exists t. }
  rewrite (Hsame Hdup) in Hrun'.
  rewrite (post_identified st req u w' Hids Hu'), Hip.
  by erewrite bind_ok by exact Hrun'.
Qed.

Lemma post_twice_witness :
  let req := Site.request ["2"; "3"] {[ "REMOTE_ADDR" := "203.0.113.5" ]} in
  let w' := (post Site.settings req (Site.world [])).2 in
  post Site.settings req w' = (Ok (HttpResponseRedirect "/home/"), w').
Proof.
  intros req w'.
  assert (resolves_to "2" Site.site_terms_2 (Site.world [])) as H2
    by (exists 2; split; reflexivity).
  assert (resolves_to "3" Site.contrib_terms (Site.world [])) as H3
    by (exists 3; split; reflexivity).
  refine (post_twice Site.settings req Site.alice (Site.world []) eq_refl _ _).
  - right. by eexists.
  - repeat constructor; eauto.
Defined.

(** ** More on EmailTermsView.form_valid *)

(** X14: when the form has an address (set and not empty) and the
    transport takes the message, [form_valid] sends one mail, to that
    address and with the form's subject or the default one, adds the
    confirmation to the messages and redirects to the form's return URL;
    the tables and the cache are not touched. *)
Theorem form_valid_sends `{Host} (st : Settings) (cleaned_data : CleanedData)
    (address : string) (w : World) :
  let email := terms_email st cleaned_data (render_email (cd_terms cleaned_data)) in
  cd_email_address cleaned_data = Some address →
  address ≠ EmptyString →
  smtp w email = None →
  (∀ url, is_safe_url st url = true → iri_to_uri url ≠ EmptyString) →
  ∃ w',
    form_valid st cleaned_data w
      = (Ok (HttpResponseRedirect (get_return_to st cleaned_data)), w')
    ∧ outbox w' = (outbox w ++ [email])%list
    ∧ email_recipients email = [address]
    ∧ subject email = default (gettext "Terms") (cd_email_subject cleaned_data)
    ∧ messages w' = (messages w ++ [(INFO, gettext "Terms and Conditions Sent.")])%list
    ∧ userterms_table w' = userterms_table w
    ∧ terms_table w' = terms_table w
    ∧ cache w' = cache w.
Proof.
  intros email Haddress Hne Hsmtp Hiri.
  assert (email_recipients email = [address]) as Hto.
  { unfold email_recipients, email, terms_email. cbn [recipients].
    change (dict_get cleaned_data "email_address") with (cd_email_address cleaned_data).
    rewrite Haddress. simpl. by rewrite decide_False. }
  eexists. split.
  - unfold form_valid. erewrite bind_ok.
    + unfold FormView_form_valid.
      rewrite decide_False by (by apply get_return_to_nonempty).
      reflexivity.
    + erewrite try_except_ok; [reflexivity|].
      erewrite bind_ok; [reflexivity|].
      fold email. apply send_mail_sends; [by rewrite Hto | done].
  - simpl. done.
Qed.

Lemma form_valid_sends_witness :
  ∃ w',
    form_valid Site.settings Site.form (Site.world [])
      = (Ok (HttpResponseRedirect "/home/"), w')
    ∧ outbox w'
      = [mkEmail "Terms" "site-terms" "terms@example.org" [Some "bob@example.org"]]
    ∧ messages w' = [(INFO, "Terms and Conditions Sent.")].
Proof.
  destruct (form_valid_sends Site.settings Site.form "bob@example.org" (Site.world [])
              eq_refl ltac:(discriminate) eq_refl)
    as (w' & Hrun & Hout & _ & _ & Hmsg & _).
  { intros [|c url]; simpl; [discriminate | done]. }
  exists w'. split; [exact Hrun|]. split; [exact Hout | exact Hmsg].
Defined.

(** X15: only [SMTPException] is handled. Any other exception that
    [send_mail] raises leaves [form_valid] as it is, with no message
    added and nothing else changed. *)
Theorem form_valid_other_failure `{Host} (st : Settings) (cleaned_data : CleanedData)
    (w : World) (e : exn) :
  send_mail (terms_email st cleaned_data (render_email (cd_terms cleaned_data))) w
    = (Raise e, w) →
  e ≠ SMTPException →
  form_valid st cleaned_data w = (Raise e, w).
Proof.
  intros Hsend Hne. unfold form_valid. apply bind_raise.
  eapply try_except_passed; [|done].
  by apply bind_raise.
Qed.

Lemma form_valid_other_failure_witness :
  let w := mkWorld [] [] [] ∅ [] (λ _, Some (OtherError "ConnectionRefusedError")) [] 0 in
  form_valid Site.settings Site.form w
  = (Raise (OtherError "ConnectionRefusedError"), w).
Proof.
  intros w.
  apply (form_valid_other_failure Site.settings Site.form w).
  - reflexivity.
  - discriminate.
Defined.

(** X16: whatever the transport does and however [form_valid] ends, it
    leaves the terms rows, the acceptance rows, the user rows, the cache
    and the clock alone; it sends at most the one mail and adds at most
    one message. *)
Theorem form_valid_frame `{Host} (st : Settings) (cleaned_data : CleanedData)
    (w : World) :
  let email := terms_email st cleaned_data (render_email (cd_terms cleaned_data)) in
  let w' := (form_valid st cleaned_data w).2 in
  terms_table w' = terms_table w
  ∧ userterms_table w' = userterms_table w
  ∧ user_table w' = user_table w
  ∧ cache w' = cache w
  ∧ now w' = now w
  ∧ (outbox w' = outbox w ∨ outbox w' = (outbox w ++ [email])%list)
  ∧ (messages w' = messages w ∨ ∃ m, messages w' = (messages w ++ [m])%list).
Proof.
  intros email.
  unfold form_valid, try_except, FormView_form_valid, raise.
  unfold mbind, M_bind, mret, M_ret, send_mail, add_message. fold email.
  destruct (decide (email_recipients email = [])).
  { destruct (decide (get_return_to st cleaned_data = EmptyString));
      simpl; repeat split; eauto. }
  destruct (smtp w email) as [e|].
  - destruct (decide (e = SMTPException)) as [->|Hne].
    + destruct (decide (get_return_to st cleaned_data = EmptyString));
        simpl; repeat split; eauto.
    + simpl. repeat split; eauto.
  - destruct (decide (get_return_to st cleaned_data = EmptyString));
      simpl; repeat split; eauto.
Qed.

(** ** get_terms without a slug or without a version *)

(** X17: [get_terms] heeds a version only when a slug comes with it. An
    empty or missing version counts as none, and without a slug (missing
    or empty) what the version holds makes no difference. *)
Theorem get_terms_ignores_version `{Host} (st : Settings) (req : Request)
    (kwargs : gmap string string) (w : World) :
  (truthy (kwargs !! "version") = false →
   get_terms st req kwargs w = get_terms st req (delete "version" kwargs) w)
  ∧ (truthy (kwargs !! "slug") = false →
     get_terms st req kwargs w
     = get_terms st req (delete "slug" (delete "version" kwargs)) w).
Proof.
  split.
  - intros Hversion. unfold get_terms.
    rewrite lookup_delete_eq, lookup_delete_ne by done.
    rewrite Hversion. simpl. by rewrite !andb_false_r.
  - intros Hslug. unfold get_terms.
    rewrite lookup_delete_eq, lookup_delete_ne, lookup_delete_eq by done.
    by rewrite Hslug.
Qed.

Lemma get_terms_ignores_version_witness :
  let req := Site.request [] ∅ in
  get_terms Site.settings req {[ "slug" := "site-terms"; "version" := "" ]} (Site.world [])
  = get_terms Site.settings req {[ "slug" := "site-terms" ]} (Site.world [])
  ∧ get_terms Site.settings req {[ "slug" := ""; "version" := "2.0" ]} (Site.world [])
    = get_terms Site.settings req ∅ (Site.world []).
Proof.
  intros req. split.
  - exact (proj1 (get_terms_ignores_version Site.settings req
                    {[ "slug" := "site-terms"; "version" := "" ]} (Site.world []))
                 eq_refl).
  - exact (proj2 (get_terms_ignores_version Site.settings req
                    {[ "slug" := ""; "version" := "2.0" ]} (Site.world []))
                 eq_refl).
Defined.

(** ** Where the views redirect to *)

Lemma get_return_to_checked `{Host} `{FromDict D} (st : Settings) (from_dict : D) :
  let return_to := default "/" (dict_get from_dict "returnTo") in
  get_return_to st from_dict = "/"
  ∨ (is_safe_url st return_to = true
     ∧ get_return_to st from_dict = iri_to_uri return_to).
Proof.
  unfold get_return_to. destruct (is_safe_url st _); [by right | by left].
Qed.

(** X18: neither view redirects to a URL that failed the safety check.
    Whenever [post] or [form_valid] ends with a redirect, the target is
    the root path or the IRI-encoded [returnTo] of the posted data (of
    the cleaned form data for [form_valid]), and in the second case that
    value, or the default root path in its absence, passed the check. *)
Theorem redirects_are_checked `{Host} (st : Settings) :
  (∀ req w url w',
     post st req w = (Ok (HttpResponseRedirect url), w') →
     let return_to := default "/" (dict_get (POST req) "returnTo") in
     url = "/" ∨ (is_safe_url st return_to = true ∧ url = iri_to_uri return_to))
  ∧ (∀ cleaned_data w url w',
       form_valid st cleaned_data w = (Ok (HttpResponseRedirect url), w') →
       let return_to := default "/" (dict_get cleaned_data "returnTo") in
       url = "/" ∨ (is_safe_url st return_to = true ∧ url = iri_to_uri return_to)).
Proof.
  split.
  - intros req w url w' Hpost. cbn zeta.
    assert (url = get_return_to st (POST req) ∨ url = "/") as [->| ->];
      [|apply get_return_to_checked|by left].
    destruct (decide (getlist (POST req) "terms" = [])) as [Hids|Hids].
    { rewrite post_no_terms in Hpost by done. left. by simplify_eq. }
    destruct (accepting_user req w) as [[[u|]|e] w1] eqn:Hu;
      pose proof (accepting_user_world _ _ _ _ Hu) as ->.
    + rewrite (post_identified st req u w Hids Hu) in Hpost.
      destruct (get_ip_address st req) as [ip|e]; [|done].
      unfold mbind, M_bind in Hpost.
      destruct (accept_all st u ip _ w) as [[[]|e] w1]; [|done].
      left. unfold mret, M_ret in Hpost. by simplify_eq.
    + unfold post in Hpost. rewrite decide_False in Hpost by done.
      erewrite bind_ok in Hpost by exact Hu.
      right. unfold mret, M_ret in Hpost. by simplify_eq.
    + unfold post in Hpost. rewrite decide_False in Hpost by done.
      by erewrite bind_raise in Hpost by exact Hu.
  - intros cleaned_data w url w' Hform. cbn zeta.
    assert (url = get_return_to st cleaned_data) as ->;
      [|apply get_return_to_checked].
    unfold form_valid in Hform. unfold mbind, M_bind at 1 in Hform.
    destruct (try_except _ _ _ w) as [[[]|e] w1]; [|done].
    unfold FormView_form_valid in Hform.
    destruct (decide (get_return_to st cleaned_data = EmptyString)); [done|].
    unfold mret, M_ret in Hform. by simplify_eq.
Qed.

Lemma redirects_are_checked_witness :
  let req := mkRequest {[ "terms" := ["2"]; "returnTo" := ["//evil.example/"] ]} ∅
               {[ "REMOTE_ADDR" := "203.0.113.5" ]} (Some Site.alice) ∅ in
  (post Site.settings req (Site.world [])).1 = Ok (HttpResponseRedirect "/")
  ∧ ("/" = "/"
     ∨ (is_safe_url Site.settings "//evil.example/" = true
        ∧ "/" = iri_to_uri "//evil.example/")).
Proof.
  intros req. split; [reflexivity|].
  exact (proj1 (redirects_are_checked Site.settings) req (Site.world []) "/"
           (post Site.settings req (Site.world [])).2 eq_refl).
Defined.
